(** * Token lifecycle of the authenticated HTTP client

    Shallow embedding of [src/services/authService.ts] (with the constants of
    [src/config/config.ts]): the request interceptor, the response
    interceptor that refreshes the token on a 401 and queues concurrent
    failures, and the [login] / [logout] operations of the session facade.

    JavaScript runs the code of an [async] function atomically between two
    [await]s.  Every such segment is a function on the state of the module
    (the world); the completion of an awaited operation is an action chosen by
    the environment, which also chooses whether a storage or network
    operation succeeds. *)

From stdpp Require Import gmap strings list fin_maps.

Open Scope string_scope.
Open Scope list_scope.

(** ** src/config/config.ts *)

Module Config.
Definition API_BASE_URL : string := "https://api.votre-backend.com/auth".
Definition TIMEOUT : Z := 10000%Z.
Module STORAGE_KEYS.
Definition ACCESS_TOKEN : string := "access_token".
Definition REFRESH_TOKEN : string := "refresh_token".
Definition USER_EMAIL : string := "userEmail".
Definition REMEMBER_ME : string := "rememberMe".
End STORAGE_KEYS.
End Config.

(** ** Data *)

(** The part of an Axios request config the service reads or writes:
    [headers] may be absent, [_retry] is the one-shot marker (absent reads
    as false). *)
Record RequestConfig := {
  url : string;
  headers : option (gmap string string);
  _retry : bool }.

(** Values that reach a [catch] or a rejected handler: an [AxiosError] with
    [error.response?.status] and [error.config], or the [Error] of a rejected
    AsyncStorage call (it has neither a response nor a config). *)
Inductive Thrown :=
  | AxiosError (status : option Z) (config : RequestConfig)
  | StorageError (message : string).

(** Outcome of an AsyncStorage promise, chosen by the environment.  A
    rejected call leaves the store as it was. *)
Inductive ReadOutcome := ReadOk | ReadFail (message : string).
Inductive WriteOutcome := WriteOk | WriteFail (message : string).

(** Outcome of a promise. *)
Inductive Settled (A : Type) :=
  | Fulfilled (value : A)
  | RejectedWith (error : Thrown).
Arguments Fulfilled {A} value.
Arguments RejectedWith {A} error.

Inductive Client := ViaApi | ViaAxios.

(** What leaves the module towards the network. *)
Inductive Event :=
  | RefreshCall (endpoint : string) (refresh_token : option string)
  | Request (via : Client) (config : RequestConfig).

(** State of the promise returned by one invocation of the rejected handler
    of the response interceptor, named after the [await] it is suspended on. *)
Inductive Handler :=
  | AwaitQueue (originalRequest : RequestConfig)
  | QueueResolved (originalRequest : RequestConfig) (token : option string)
  | AwaitGetItem (originalRequest : RequestConfig)
  | AwaitRefreshPost (originalRequest : RequestConfig)
  | AwaitMultiSet (originalRequest : RequestConfig) (access_token refresh_token : string)
  | AwaitMultiRemove (err : Thrown)
  | Reissued (via : Client) (config : RequestConfig)
  | Rejected (error : Thrown).

(** The module state: AsyncStorage, the two module variables, the one
    default header the module writes, the handler promises (a queue entry
    [{resolve, reject}] is the index of the promise it settles) and the
    requests issued so far (oldest first). *)
Record World := {
  storage : gmap string string;
  isRefreshing : bool;
  failedQueue : list nat;
  defaults_Authorization : option string;
  promises : list Handler;
  network : list Event }.

#[global] Instance RequestConfig_eq_dec : EqDecision RequestConfig.
Proof. solve_decision. Defined.
#[global] Instance Thrown_eq_dec : EqDecision Thrown.
Proof. solve_decision. Defined.
#[global] Instance Client_eq_dec : EqDecision Client.
Proof. solve_decision. Defined.
#[global] Instance Event_eq_dec : EqDecision Event.
Proof. solve_decision. Defined.
#[global] Instance Handler_eq_dec : EqDecision Handler.
Proof. solve_decision. Defined.

Definition set_storage (s : gmap string string) (w : World) : World :=
  {| storage := s; isRefreshing := isRefreshing w; failedQueue := failedQueue w;
     defaults_Authorization := defaults_Authorization w;
     promises := promises w; network := network w |}.

Definition set_isRefreshing (b : bool) (w : World) : World :=
  {| storage := storage w; isRefreshing := b; failedQueue := failedQueue w;
     defaults_Authorization := defaults_Authorization w;
     promises := promises w; network := network w |}.

Definition set_failedQueue (q : list nat) (w : World) : World :=
  {| storage := storage w; isRefreshing := isRefreshing w; failedQueue := q;
     defaults_Authorization := defaults_Authorization w;
     promises := promises w; network := network w |}.

Definition set_defaults_Authorization (a : option string) (w : World) : World :=
  {| storage := storage w; isRefreshing := isRefreshing w; failedQueue := failedQueue w;
     defaults_Authorization := a;
     promises := promises w; network := network w |}.

Definition set_promises (ps : list Handler) (w : World) : World :=
  {| storage := storage w; isRefreshing := isRefreshing w; failedQueue := failedQueue w;
     defaults_Authorization := defaults_Authorization w;
     promises := ps; network := network w |}.

Definition emit (e : Event) (w : World) : World :=
  {| storage := storage w; isRefreshing := isRefreshing w; failedQueue := failedQueue w;
     defaults_Authorization := defaults_Authorization w;
     promises := promises w; network := network w ++ [e] |}.

Definition set_headers (h : gmap string string) (c : RequestConfig) : RequestConfig :=
  {| url := url c; headers := Some h; _retry := _retry c |}.

Definition set_retry (c : RequestConfig) : RequestConfig :=
  {| url := url c; headers := headers c; _retry := true |}.

(** ** AsyncStorage

    Each call takes the outcome the environment gives its promise. *)

Module AsyncStorage.
Definition getItem (r : ReadOutcome) (key : string) (w : World)
  : Settled (option string) :=
  match r with
  | ReadOk => Fulfilled (storage w !! key)
  | ReadFail m => RejectedWith (StorageError m)
  end.

Definition multiSet (r : WriteOutcome) (kvs : list (string * string)) (w : World)
  : Settled World :=
  match r with
  | WriteOk => Fulfilled (set_storage (foldl (fun m kv => <[kv.1 := kv.2]> m) (storage w) kvs) w)
  | WriteFail m => RejectedWith (StorageError m)
  end.

Definition multiRemove (r : WriteOutcome) (keys : list string) (w : World)
  : Settled World :=
  match r with
  | WriteOk => Fulfilled (set_storage (foldl (fun m k => delete k m) (storage w) keys) w)
  | WriteFail m => RejectedWith (StorageError m)
  end.
End AsyncStorage.

(** [`Bearer ${token}`]: a null token prints as the word null. *)
Definition bearer (token : option string) : string :=
  "Bearer " +:+ default "null" token.

(** [if (token)] on a [string | null]: null and the empty string are falsy. *)
Definition truthy (token : option string) : bool :=
  match token with
  | Some t => negb (String.eqb t "")
  | None => false
  end.

(** ** processQueue (lines 20-26) *)

Definition set_promise (i : nat) (p : Handler) (w : World) : World :=
  set_promises (<[i := p]> (promises w)) w.

(** [prom.resolve(token)]: fulfils the promise the handler of [prom] waits
    on; its [then] callback runs later. *)
Definition resolve (token : option string) (w : World) (prom : nat) : World :=
  match promises w !! prom with
  | Some (AwaitQueue c) => set_promise prom (QueueResolved c token) w
  | _ => w
  end.

(** [prom.reject(error)]: the [then] has no rejection callback, the
    handler's promise rejects with [error]. *)
Definition reject (error : Thrown) (w : World) (prom : nat) : World :=
  match promises w !! prom with
  | Some (AwaitQueue _) => set_promise prom (Rejected error) w
  | _ => w
  end.

(** The body of the [forEach]: [if (error) prom.reject(error); else
    prom.resolve(token)].  [error] is [null] or a thrown value; every thrown
    value is an object, hence truthy. *)
Definition settle (error : option Thrown) (token : option string)
    (w : World) (prom : nat) : World :=
  match error with
  | Some e => reject e w prom
  | None => resolve token w prom
  end.

Definition processQueue (error : option Thrown) (token : option string)
    (w : World) : World :=
  set_failedQueue [] (foldl (settle error token) w (failedQueue w)).

(** ** Request interceptor (lines 39-51) *)

Definition requestInterceptor (r : ReadOutcome) (w : World)
    (config : RequestConfig) : Settled RequestConfig :=
  match AsyncStorage.getItem r Config.STORAGE_KEYS.ACCESS_TOKEN w with
  | RejectedWith e => RejectedWith e
  | Fulfilled token =>
      let h := default ∅ (headers config) in
      if truthy token
      then Fulfilled (set_headers (<["Authorization" := bearer token]> h) config)
      else Fulfilled (set_headers h config)
  end.

(** Axios merges the defaults of the instance into the config of a request
    before the request interceptors run; a header of the request wins over
    the default of the same name.  The only default the module sets is
    [api.defaults.headers.common\['Authorization'\]] (line 83). *)
Definition mergeDefaults (w : World) (config : RequestConfig) : RequestConfig :=
  let d : gmap string string :=
    match defaults_Authorization w with
    | Some a => {["Authorization" := a]}
    | None => ∅
    end in
  set_headers (default ∅ (headers config) ∪ d) config.

(** The config handed to the transport by [api(config)]. *)
Definition api_outgoing (r : ReadOutcome) (w : World) (config : RequestConfig)
  : Settled RequestConfig :=
  requestInterceptor r w (mergeDefaults w config).

(** ** Response interceptor, rejected handler (lines 58-95) *)

(** Lines 87-88: [processQueue(err, null)], then the handler awaits
    [multiRemove]. *)
Definition catch_block (tid : nat) (err : Thrown) (w : World) : World :=
  set_promise tid (AwaitMultiRemove err) (processQueue (Some err) None w).

(** Line 91. *)
Definition finally_block (w : World) : World := set_isRefreshing false w.

(** Lines 59-76 and 94: the handler from its call to its first [await] (or
    to its return).  Its promise gets the next free index. *)
Definition onRejected (error : Thrown) (w : World) : World :=
  let tid := length (promises w) in
  match error with
  | AxiosError status originalRequest =>
      if bool_decide (status = Some 401%Z) && negb (_retry originalRequest) then
        if isRefreshing w then
          set_promises (promises w ++ [AwaitQueue originalRequest])
            (set_failedQueue (failedQueue w ++ [tid]) w)
        else
          set_promises (promises w ++ [AwaitGetItem (set_retry originalRequest)])
            (set_isRefreshing true w)
      else set_promises (promises w ++ [Rejected error]) w
  | StorageError _ => set_promises (promises w ++ [Rejected error]) w
  end.

(** Lines 65-67: the bearer header is written only into a headers object
    that is there. *)
Definition with_token (token : option string) (c : RequestConfig) : RequestConfig :=
  match headers c with
  | Some h => set_headers (<["Authorization" := bearer token]> h) c
  | None => c
  end.

(** Lines 64-69: the [then] callback of a queued handler; it re-issues the
    request through the global [axios], not through [api]. *)
Definition thenCallback (tid : nat) (w : World) : World :=
  match promises w !! tid with
  | Some (QueueResolved originalRequest token) =>
      let c := with_token token originalRequest in
      emit (Request ViaAxios c) (set_promise tid (Reissued ViaAxios c) w)
  | _ => w
  end.

(** Line 76 resumes: the refresh token is read and line 77 posts it. *)
Definition getItemDone (tid : nat) (r : ReadOutcome) (w : World) : World :=
  match promises w !! tid with
  | Some (AwaitGetItem originalRequest) =>
      match AsyncStorage.getItem r Config.STORAGE_KEYS.REFRESH_TOKEN w with
      | Fulfilled refreshToken =>
          emit (RefreshCall (Config.API_BASE_URL +:+ "/refresh") refreshToken)
            (set_promise tid (AwaitRefreshPost originalRequest) w)
      | RejectedWith err => catch_block tid err w
      end
  | _ => w
  end.

(** Line 77 resumes: lines 78-82. *)
Definition refreshPostDone (tid : nat) (r : Settled (string * string)) (w : World)
  : World :=
  match promises w !! tid with
  | Some (AwaitRefreshPost originalRequest) =>
      match r with
      | Fulfilled (access_token, refresh_token) =>
          set_promise tid (AwaitMultiSet originalRequest access_token refresh_token) w
      | RejectedWith err => catch_block tid err w
      end
  | _ => w
  end.

(** Line 79 resumes: lines 83-85, then [finally]. *)
Definition multiSetDone (tid : nat) (r : WriteOutcome) (w : World) : World :=
  match promises w !! tid with
  | Some (AwaitMultiSet originalRequest access_token refresh_token) =>
      match AsyncStorage.multiSet r
              [(Config.STORAGE_KEYS.ACCESS_TOKEN, access_token);
               (Config.STORAGE_KEYS.REFRESH_TOKEN, refresh_token)] w with
      | Fulfilled w1 =>
          let w2 := set_defaults_Authorization (Some (bearer (Some access_token))) w1 in
          let w3 := processQueue None (Some access_token) w2 in
          let w4 := emit (Request ViaApi originalRequest)
                      (set_promise tid (Reissued ViaApi originalRequest) w3) in
          finally_block w4
      | RejectedWith err => catch_block tid err w
      end
  | _ => w
  end.

(** Line 88 resumes: line 89, then [finally]. *)
Definition multiRemoveDone (tid : nat) (r : WriteOutcome) (w : World) : World :=
  match promises w !! tid with
  | Some (AwaitMultiRemove err) =>
      match AsyncStorage.multiRemove r
              [Config.STORAGE_KEYS.ACCESS_TOKEN; Config.STORAGE_KEYS.REFRESH_TOKEN] w with
      | Fulfilled w1 => finally_block (set_promise tid (Rejected err) w1)
      | RejectedWith err' => finally_block (set_promise tid (Rejected err') w)
      end
  | _ => w
  end.

(** ** The event loop *)

Inductive Action :=
  | Arrive (error : Thrown)
  | GetItemDone (tid : nat) (r : ReadOutcome)
  | RefreshPostDone (tid : nat) (r : Settled (string * string))
  | MultiSetDone (tid : nat) (r : WriteOutcome)
  | MultiRemoveDone (tid : nat) (r : WriteOutcome)
  | ThenCallback (tid : nat).

(** One turn of the loop; a completion no handler waits for changes
    nothing. *)
Definition step (w : World) (a : Action) : World :=
  match a with
  | Arrive error => onRejected error w
  | GetItemDone tid r => getItemDone tid r w
  | RefreshPostDone tid r => refreshPostDone tid r w
  | MultiSetDone tid r => multiSetDone tid r w
  | MultiRemoveDone tid r => multiRemoveDone tid r w
  | ThenCallback tid => thenCallback tid w
  end.

Definition run (w : World) (acts : list Action) : World := foldl step w acts.

Definition init (s : gmap string string) : World :=
  {| storage := s; isRefreshing := false; failedQueue := [];
     defaults_Authorization := None; promises := []; network := [] |}.

(** ** Session facade (lines 101-236) *)

Module LoginDto.
Record t := { email : string; password : string }.
End LoginDto.

Module UserProfile.
Record t := {
  id : string;
  email : string;
  first_name : string;
  last_name : string;
  full_name : string;
  roles : list string }.
End UserProfile.

Module AuthResponse.
Record t := {
  access_token : string;
  refresh_token : string;
  jti : string;
  user : UserProfile.t }.
End AuthResponse.

(** [authService.login] (lines 154-162).  [during] is what the event loop
    does while the post is pending (the interceptors of this request
    included), [r_post] what the post settles with, [r_set] the outcome of
    [multiSet]. *)
Definition login (data : LoginDto.t) (during : list Action)
    (r_post : Settled AuthResponse.t) (r_set : WriteOutcome) (w : World)
  : World * Settled AuthResponse.t :=
  let w1 := emit (Request ViaApi {| url := "/login"; headers := None; _retry := false |}) w in
  let w2 := run w1 during in
  match r_post with
  | RejectedWith e => (w2, RejectedWith e)
  | Fulfilled response_data =>
      match AsyncStorage.multiSet r_set
              [(Config.STORAGE_KEYS.ACCESS_TOKEN, AuthResponse.access_token response_data);
               (Config.STORAGE_KEYS.REFRESH_TOKEN, AuthResponse.refresh_token response_data)]
              w2 with
      | Fulfilled w3 => (w3, Fulfilled response_data)
      | RejectedWith e => (w2, RejectedWith e)
      end
  end.

(** [authService.logout] (lines 217-227).  [r_get] is the outcome of the
    [getItem] of line 218, [r_post] what the post settles with (the empty
    [catch] discards a rejection), [r_remove] the outcome of [multiRemove]. *)
Definition logout (r_get : ReadOutcome) (during : list Action)
    (r_post : Settled unit) (r_remove : WriteOutcome) (w : World)
  : World * Settled unit :=
  match AsyncStorage.getItem r_get Config.STORAGE_KEYS.ACCESS_TOKEN w with
  | RejectedWith e => (w, RejectedWith e)
  | Fulfilled token =>
      let w1 := emit (Request ViaApi
                        {| url := "/logout";
                           headers := Some {["Authorization" := bearer token]};
                           _retry := false |}) w in
      let w2 := run w1 during in
      let w3 := match r_post with
                | Fulfilled _ => w2
                | RejectedWith _ => w2
                end in
      match AsyncStorage.multiRemove r_remove
              [Config.STORAGE_KEYS.ACCESS_TOKEN; Config.STORAGE_KEYS.REFRESH_TOKEN] w3 with
      | Fulfilled w4 => (w4, Fulfilled tt)
      | RejectedWith e => (w3, RejectedWith e)
      end
  end.

(** ** Observations used in the statements *)

(** The handler is inside the refresh branch (lines 72-92). *)
Definition in_refresh (p : Handler) : bool :=
  match p with
  | AwaitGetItem _ | AwaitRefreshPost _ | AwaitMultiSet _ _ _ | AwaitMultiRemove _ => true
  | _ => false
  end.

Definition awaits_read (p : Handler) : bool :=
  match p with AwaitGetItem _ => true | _ => false end.

Definition in_flight (w : World) : nat :=
  length (List.filter in_refresh (promises w)).

Definition reads_pending (w : World) : nat :=
  length (List.filter awaits_read (promises w)).

Definition is_refresh_call (e : Event) : bool :=
  match e with RefreshCall _ _ => true | Request _ _ => false end.

Definition refresh_calls (w : World) : nat :=
  length (List.filter is_refresh_call (network w)).

(** A 401 on a request that was not retried yet. *)
Definition fresh401 (error : Thrown) : bool :=
  match error with
  | AxiosError status c => bool_decide (status = Some 401%Z) && negb (_retry c)
  | StorageError _ => false
  end.

Definition response_status (error : Thrown) : option Z :=
  match error with
  | AxiosError status _ => status
  | StorageError _ => None
  end.

(** The action is a fresh 401 observed while the flag is idle. *)
Definition starts_refresh (w : World) (a : Action) : bool :=
  match a with
  | Arrive error => fresh401 error && negb (isRefreshing w)
  | _ => false
  end.

Fixpoint starts (w : World) (acts : list Action) : nat :=
  match acts with
  | [] => 0
  | a :: rest => (if starts_refresh w a then 1 else 0) + starts (step w a) rest
  end.

(** The handler promise has left the refresh branch for good. *)
Definition settled (p : Handler) : bool :=
  match p with
  | Reissued _ _ | Rejected _ => true
  | _ => false
  end.

(** Consistency of the module state: queue entries are distinct handlers
    waiting on the queue, and the flag is set exactly while one handler is
    inside the refresh branch. *)
Record wf (w : World) : Prop := {
  wf_queue : forall tid, tid ∈ failedQueue w ->
             exists c, promises w !! tid = Some (AwaitQueue c);
  wf_nodup : NoDup (failedQueue w);
  wf_flight : in_flight w = if isRefreshing w then 1 else 0 }.

(** What [processQueue] makes of one queued handler. *)
Definition settle_form (error : option Thrown) (token : option string)
    (p : Handler) : Handler :=
  match p with
  | AwaitQueue c =>
      match error with
      | Some e => Rejected e
      | None => QueueResolved c token
      end
  | _ => p
  end.

Definition unauthorized (c : RequestConfig) : Action :=
  Arrive (AxiosError (Some 401%Z) c).

(** Sample data for the closed examples. *)
Definition cfg (u : string) : RequestConfig :=
  {| url := u; headers := Some ∅; _retry := false |}.

Definition store0 : gmap string string :=
  {[ "access_token" := "A0"; "refresh_token" := "R0"; "userEmail" := "a@b.com" ]}.

(** What the [then] callback makes of a handler. *)
Definition callback_form (p : Handler) : Handler :=
  match p with
  | QueueResolved c token => Reissued ViaAxios (with_token token c)
  | _ => p
  end.

(** The keys of the two tokens. *)
Definition token_key (k : string) : Prop :=
  k = Config.STORAGE_KEYS.ACCESS_TOKEN \/ k = Config.STORAGE_KEYS.REFRESH_TOKEN.

(** Two requests got a 401, the refresh token was read and the refresh call
    is pending: handler 0 refreshes, handler 1 waits in the queue. *)
Definition refreshing_world : World :=
  run (init store0)
    [unauthorized (cfg "/me"); unauthorized (cfg "/wallet"); GetItemDone 0 ReadOk].

(** A refresh succeeded with the access token A1, then the user logged out. *)
Definition after_refresh_and_logout : World :=
  (logout ReadOk [] (Fulfilled tt) WriteOk
     (run (init store0)
        [unauthorized (cfg "/me"); GetItemDone 0 ReadOk;
         RefreshPostDone 0 (Fulfilled ("A1", "R1")); MultiSetDone 0 WriteOk])).1.

Definition sample_payload : AuthResponse.t :=
  {| AuthResponse.access_token := "A1";
     AuthResponse.refresh_token := "R1";
     AuthResponse.jti := "j1";
     AuthResponse.user :=
       {| UserProfile.id := "u1"; UserProfile.email := "a@b.com";
          UserProfile.first_name := "A"; UserProfile.last_name := "B";
          UserProfile.full_name := "A B"; UserProfile.roles := ["investor"] |} |}.

(** ** Session facade, the other operations (lines 164-212, 229-235) *)

Module RegisterDto.
Record t := {
  first_name : string;
  last_name : string;
  email : string;
  password : string }.
End RegisterDto.

Module ForgotPasswordDto.
Record t := { email : string }.
End ForgotPasswordDto.

Module ResetPasswordDto.
Record t := { token : string; new_password : string }.
End ResetPasswordDto.

Module VerifyOtpDto.
Record t := { userId : string; otp : string }.
End VerifyOtpDto.

(** [await api.post(u, ...)] (or [api.get(u)]) up to the moment it settles:
    the request is handed to [api], then the event loop runs [during]. *)
Definition pending (u : string) (during : list Action) (w : World) : World :=
  run (emit (Request ViaApi {| url := u; headers := None; _retry := false |}) w) during.

(** [const response = await api.post(u, data); return response.data]: used
    by [register], [forgotPassword], [resetPassword] and [getProfile]. *)
Definition returning {A : Type} (u : string) (during : list Action)
    (r : Settled A) (w : World) : World * Settled A :=
  match r with
  | Fulfilled response_data => (pending u during w, Fulfilled response_data)
  | RejectedWith e => (pending u during w, RejectedWith e)
  end.

(** [authService.register] (lines 167-170). *)
Definition register (data : RegisterDto.t) (during : list Action)
    (r_post : Settled UserProfile.t) (w : World) : World * Settled UserProfile.t :=
  returning "/register" during r_post w.

(** [authService.refreshToken] (lines 175-183): the post goes through [api],
    unlike the one of the response interceptor. *)
Definition refreshToken (r_get : ReadOutcome) (during : list Action)
    (r_post : Settled (string * string)) (r_set : WriteOutcome) (w : World)
  : World * Settled (string * string) :=
  match AsyncStorage.getItem r_get Config.STORAGE_KEYS.REFRESH_TOKEN w with
  | RejectedWith e => (w, RejectedWith e)
  | Fulfilled refresh_token =>
      let w2 := pending "/refresh" during w in
      match r_post with
      | RejectedWith e => (w2, RejectedWith e)
      | Fulfilled response_data =>
          match AsyncStorage.multiSet r_set
                  [(Config.STORAGE_KEYS.ACCESS_TOKEN, response_data.1);
                   (Config.STORAGE_KEYS.REFRESH_TOKEN, response_data.2)] w2 with
          | Fulfilled w3 => (w3, Fulfilled response_data)
          | RejectedWith e => (w2, RejectedWith e)
          end
      end
  end.

(** [authService.forgotPassword] (lines 188-191); the response carries a
    message. *)
Definition forgotPassword (data : ForgotPasswordDto.t) (during : list Action)
    (r_post : Settled string) (w : World) : World * Settled string :=
  returning "/forgot-password" during r_post w.

(** [authService.resetPassword] (lines 196-199). *)
Definition resetPassword (data : ResetPasswordDto.t) (during : list Action)
    (r_post : Settled string) (w : World) : World * Settled string :=
  returning "/reset-password" during r_post w.

(** [authService.verifyOtp] (lines 204-212). *)
Definition verifyOtp (data : VerifyOtpDto.t) (during : list Action)
    (r_post : Settled AuthResponse.t) (r_set : WriteOutcome) (w : World)
  : World * Settled AuthResponse.t :=
  let w2 := pending "/verify-otp" during w in
  match r_post with
  | RejectedWith e => (w2, RejectedWith e)
  | Fulfilled response_data =>
      match AsyncStorage.multiSet r_set
              [(Config.STORAGE_KEYS.ACCESS_TOKEN, AuthResponse.access_token response_data);
               (Config.STORAGE_KEYS.REFRESH_TOKEN, AuthResponse.refresh_token response_data)]
              w2 with
      | Fulfilled w3 => (w3, Fulfilled response_data)
      | RejectedWith e => (w2, RejectedWith e)
      end
  end.

(** [authService.getProfile] (lines 232-235). *)
Definition getProfile (during : list Action) (r_get : Settled UserProfile.t)
    (w : World) : World * Settled UserProfile.t :=
  returning "/me" during r_get w.

(** A request config without a headers object. *)
Definition cfg_bare (u : string) : RequestConfig :=
  {| url := u; headers := None; _retry := false |}.

(** ** JavaScript strings and regular expressions

    The validators look at a string one UTF-16 code unit at a time (none of
    the patterns has the [u] flag, [length] counts code units).  A code unit
    is its number; a character of a Rocq string stands for the code unit of
    the same number. *)

Definition units (s : string) : list N :=
  Ascii.N_of_ascii <$> String.list_ascii_of_string s.

Module RegExp.

(** The patterns of the sources use no groups that capture, no
    back-references and no look-around: a pattern denotes a set of strings. *)
Inductive t :=
  | Never
  | Empty
  | Unit (class : N -> bool)
  | Seq (r1 r2 : t)
  | Or (r1 r2 : t)
  | Many (r : t).

(** [r+], [r?] and [r{n}]. *)
Definition Some1 (r : t) : t := Seq r (Many r).

Definition Opt (r : t) : t := Or r Empty.

Fixpoint Times (n : nat) (r : t) : t :=
  match n with
  | O => Empty
  | S n' => Seq r (Times n' r)
  end.

Fixpoint nullable (r : t) : bool :=
  match r with
  | Never => false
  | Empty => true
  | Unit _ => false
  | Seq r1 r2 => nullable r1 && nullable r2
  | Or r1 r2 => nullable r1 || nullable r2
  | Many _ => true
  end.

(** What is left of [r] after the code unit [c]. *)
Fixpoint after (c : N) (r : t) : t :=
  match r with
  | Never => Never
  | Empty => Never
  | Unit class => if class c then Empty else Never
  | Seq r1 r2 =>
      if nullable r1 then Or (Seq (after c r1) r2) (after c r2)
      else Seq (after c r1) r2
  | Or r1 r2 => Or (after c r1) (after c r2)
  | Many r1 => Seq (after c r1) (Many r1)
  end.

(** [/^r$/.test(s)]. *)
Fixpoint matches (r : t) (s : list N) : bool :=
  match s with
  | [] => nullable r
  | c :: s' => matches (after c r) s'
  end.

Definition any : t := Unit (fun _ => true).

(** [/r/.test(s)]: some substring of [s] matches. *)
Definition test (r : t) (s : list N) : bool :=
  matches (Seq (Many any) (Seq r (Many any))) s.

(** Character classes. *)
Definition range (lo hi : string) (c : N) : bool :=
  match units lo, units hi with
  | [l], [h] => (l <=? c)%N && (c <=? h)%N
  | _, _ => false
  end.

Definition one_of (cs : list N) (c : N) : bool :=
  existsb (N.eqb c) cs.

(** [\s]: white space and line terminators. *)
Definition space (c : N) : bool :=
  one_of [9; 10; 11; 12; 13; 32; 160; 5760; 8232; 8233; 8239; 8287; 12288; 65279]%N c
  || (8192 <=? c)%N && (c <=? 8202)%N.

(** [\d]. *)
Definition digit : N -> bool := range "0" "9".

(** The set of strings a pattern denotes. *)
Inductive star (L : list N -> Prop) : list N -> Prop :=
  | star_nil : star L []
  | star_app (s1 s2 : list N) : L s1 -> star L s2 -> star L (s1 ++ s2).

Fixpoint lang (r : t) (s : list N) : Prop :=
  match r with
  | Never => False
  | Empty => s = []
  | Unit class => exists c, s = [c] /\ class c = true
  | Seq r1 r2 => exists s1 s2, s = s1 ++ s2 /\ lang r1 s1 /\ lang r2 s2
  | Or r1 r2 => lang r1 s \/ lang r2 s
  | Many r1 => star (lang r1) s
  end.

End RegExp.

(** ** The login screen (src/screens/auth/KycScreen.tsx, lines 889-974)

    The form fields are Rocq strings, as the store and the service carry
    them; the validators read them through [units].  Messages are kept as
    code units. *)

Module LoginScreen.

Record State := {
  email : string;
  password : string;
  rememberMe : bool;
  emailError : list N;
  passwordError : list N;
  isLoading : bool }.

(** What the screen does besides its own state and the store. *)
Inductive Effect :=
  | NavigationReset (route : string)
  | Alert (title message : list N)
  | ConsoleError (label : string) (err : Thrown)
  | ConsoleWarn (label : string) (err : Thrown).

Definition setEmail (v : string) (st : State) : State :=
  {| email := v; password := password st; rememberMe := rememberMe st;
     emailError := emailError st; passwordError := passwordError st;
     isLoading := isLoading st |}.

Definition setRememberMe (b : bool) (st : State) : State :=
  {| email := email st; password := password st; rememberMe := b;
     emailError := emailError st; passwordError := passwordError st;
     isLoading := isLoading st |}.

Definition setEmailError (m : list N) (st : State) : State :=
  {| email := email st; password := password st; rememberMe := rememberMe st;
     emailError := m; passwordError := passwordError st;
     isLoading := isLoading st |}.

Definition setPasswordError (m : list N) (st : State) : State :=
  {| email := email st; password := password st; rememberMe := rememberMe st;
     emailError := emailError st; passwordError := m;
     isLoading := isLoading st |}.

Definition setIsLoading (b : bool) (st : State) : State :=
  {| email := email st; password := password st; rememberMe := rememberMe st;
     emailError := emailError st; passwordError := passwordError st;
     isLoading := b |}.

(** [/^[^\s@]+@[^\s@]+\.[^\s@]+$/] (line 930). *)
Definition plain (c : N) : bool :=
  negb (RegExp.space c || RegExp.one_of (units "@") c).

Definition re : RegExp.t :=
  RegExp.Seq (RegExp.Some1 (RegExp.Unit plain))
    (RegExp.Seq (RegExp.Unit (RegExp.one_of (units "@")))
       (RegExp.Seq (RegExp.Some1 (RegExp.Unit plain))
          (RegExp.Seq (RegExp.Unit (RegExp.one_of (units ".")))
             (RegExp.Some1 (RegExp.Unit plain))))).

(** Lines 929-935. *)
Definition validateEmail (value : string) (st : State) : State * bool :=
  if negb (truthy (Some value)) then
    (setEmailError (units "Veuillez saisir votre email") st, false)
  else if negb (RegExp.matches re (units value)) then
    (setEmailError (units "Format d'email invalide") st, false)
  else (setEmailError [] st, true).

(** Lines 937-942. *)
Definition validatePassword (value : string) (st : State) : State * bool :=
  if negb (truthy (Some value)) then
    (setPasswordError (units "Veuillez saisir votre mot de passe") st, false)
  else if Nat.ltb (length (units value)) 6 then
    (setPasswordError
       (units "Le mot de passe doit faire " ++ [8805%N] ++ units " 6 caract"
        ++ [232%N] ++ units "res") st, false)
  else (setPasswordError [] st, true).

(** Lines 906-919: the saved credentials are read when the screen mounts
    ([between] is what the event loop does between the two reads). *)
Definition loadSaved (r_email r_remember : ReadOutcome) (between : list Action)
    (st : State) (w : World) : State * list Effect :=
  match AsyncStorage.getItem r_email Config.STORAGE_KEYS.USER_EMAIL w with
  | RejectedWith err => (st, [ConsoleWarn "Load credentials error" err])
  | Fulfilled savedEmail =>
      match AsyncStorage.getItem r_remember Config.STORAGE_KEYS.REMEMBER_ME
              (run w between) with
      | RejectedWith err => (st, [ConsoleWarn "Load credentials error" err])
      | Fulfilled savedRemember =>
          if truthy savedEmail && bool_decide (savedRemember = Some "true") then
            (setRememberMe true (setEmail (default "" savedEmail) st), [])
          else (st, [])
      end
  end.

(** The [catch] and [finally] of [handleLogin] (lines 965-973). *)
Definition failed (err : Thrown) (st : State) (w : World)
  : State * World * list Effect :=
  (setIsLoading false st, w,
   [ConsoleError "Login error:" err;
    Alert ([201%N] ++ units "chec de connexion")
      (units "Identifiants incorrects ou probl" ++ [232%N] ++ units "me r"
       ++ [233%N] ++ units "seau. R" ++ [233%N] ++ units "essayez.")]).

(** [handleLogin] (lines 945-974).  [r_remember] is the outcome of the
    [multiSet] or [multiRemove] of the remembered credentials, [before] what
    the event loop does while it is pending; the other arguments are those
    of [login]. *)
Definition handleLogin (r_remember : WriteOutcome) (before during : list Action)
    (r_post : Settled AuthResponse.t) (r_set : WriteOutcome)
    (st : State) (w : World) : State * World * list Effect :=
  let (st1, email_ok) := validateEmail (email st) st in
  if negb email_ok then (st1, w, []) else
  let (st2, password_ok) := validatePassword (password st) st1 in
  if negb password_ok then (st2, w, []) else
  let st3 := setIsLoading true st2 in
  let w1 := run w before in
  let saved :=
    if rememberMe st then
      AsyncStorage.multiSet r_remember
        [(Config.STORAGE_KEYS.USER_EMAIL, email st);
         (Config.STORAGE_KEYS.REMEMBER_ME, "true")] w1
    else
      AsyncStorage.multiRemove r_remember
        [Config.STORAGE_KEYS.USER_EMAIL; Config.STORAGE_KEYS.REMEMBER_ME] w1 in
  match saved with
  | RejectedWith err => failed err st3 w1
  | Fulfilled w2 =>
      match login {| LoginDto.email := email st; LoginDto.password := password st |}
              during r_post r_set w2 with
      | (w3, RejectedWith err) => failed err st3 w3
      | (w3, Fulfilled _) => (setIsLoading false st3, w3, [NavigationReset "Main"])
      end
  end.

End LoginScreen.

(** The two checks in front of the sign-in. *)
Definition valid_input (st : LoginScreen.State) : Prop :=
  RegExp.matches LoginScreen.re (units (LoginScreen.email st)) = true
  /\ 6 <= length (units (LoginScreen.password st)).

(** A form as the user filled it in. *)
Definition form (e p : string) (remember : bool) : LoginScreen.State :=
  {| LoginScreen.email := e; LoginScreen.password := p;
     LoginScreen.rememberMe := remember;
     LoginScreen.emailError := []; LoginScreen.passwordError := [];
     LoginScreen.isLoading := false |}.

(** ** Plain objects

    The names of the members of [Object.prototype] (ECMAScript 20.1.3 and
    B.2.2): the constructor, the methods, and the accessor [__proto__].  An
    object literal inherits them all; none of them is an array. *)

Module Object.
Definition prototype : list (list N) :=
  units <$> [ "constructor"; "hasOwnProperty"; "isPrototypeOf";
              "propertyIsEnumerable"; "toLocaleString"; "toString"; "valueOf";
              "__proto__"; "__defineGetter__"; "__defineSetter__";
              "__lookupGetter__"; "__lookupSetter__" ].
End Object.

(** ** src/services/validators.ts

    A value and a message are JavaScript strings, kept as code units. *)

Module Validators.

Record ValidationResult := {
  isValid : bool;
  errors : list (list N) }.

Definition ValidatorFn : Type := list N -> option (list N).

(** [String.prototype.trim]: white space and line terminators are removed
    at both ends. *)
Fixpoint trimStart (s : list N) : list N :=
  match s with
  | [] => []
  | c :: s' => if RegExp.space c then trimStart s' else s
  end.

Definition trim (s : list N) : list N :=
  rev (trimStart (rev (trimStart s))).

(** A string is truthy when it is not empty. *)
Definition nonempty (s : list N) : bool :=
  match s with [] => false | _ :: _ => true end.

(** Lines 13-14. *)
Definition isRequired : ValidatorFn := fun value =>
  if nonempty (trim value) then None else Some (units "Ce champ est requis.").

Definition letter (c : N) : bool :=
  RegExp.range "a" "z" c || RegExp.range "A" "Z" c.

Definition alnum (c : N) : bool := letter c || RegExp.digit c.

(** [/^[a-zA-Z0-9_.+-]+@[a-zA-Z0-9-]+\.[a-zA-Z0-9-.]+$/] (line 21). *)
Definition emailRegex : RegExp.t :=
  RegExp.Seq
    (RegExp.Some1 (RegExp.Unit (fun c => alnum c || RegExp.one_of (units "_.+-") c)))
    (RegExp.Seq (RegExp.Unit (RegExp.one_of (units "@")))
       (RegExp.Seq
          (RegExp.Some1 (RegExp.Unit (fun c => alnum c || RegExp.one_of (units "-") c)))
          (RegExp.Seq (RegExp.Unit (RegExp.one_of (units ".")))
             (RegExp.Some1
                (RegExp.Unit (fun c => alnum c || RegExp.one_of (units "-.") c)))))).

(** Lines 19-25. *)
Definition isEmail : ValidatorFn := fun value =>
  if RegExp.matches emailRegex value then None
  else Some (units "Adresse e" ++ [8209%N] ++ units "mail invalide.").

(** The class of special characters of line 40: the twenty characters
    between the brackets, among them the double quote (code unit 34). *)
Definition special : N -> bool :=
  RegExp.one_of (units "!@#$%^&*(),.?" ++ [34%N] ++ units ":{}|<>").

(** Lines 36-41. *)
Definition rules : list (RegExp.t * list N) :=
  [ (RegExp.Unit (RegExp.range "A" "Z"), units "une majuscule");
    (RegExp.Unit (RegExp.range "a" "z"), units "une minuscule");
    (RegExp.Unit RegExp.digit, units "un chiffre");
    (RegExp.Unit special,
     units "un caract" ++ [232%N] ++ units "re sp" ++ [233%N] ++ units "cial") ].

(** [Array.prototype.join]. *)
Fixpoint join (sep : list N) (parts : list (list N)) : list N :=
  match parts with
  | [] => []
  | [p] => p
  | p :: rest => p ++ sep ++ join sep rest
  end.

(** Lines 32-48. *)
Definition isStrongPassword : ValidatorFn := fun value =>
  if Nat.ltb (length value) 8 then
    Some (units "Le mot de passe doit contenir au moins 8 caract" ++ [232%N]
          ++ units "res.")
  else
    let failed :=
      snd <$> List.filter (fun r => negb (RegExp.test (fst r) value)) rules in
    if negb (Nat.eqb (length failed) 0) then
      Some (units "Le mot de passe doit contenir " ++ join (units ", ") failed
            ++ units ".")
    else None.

(** One literal character. *)
Definition lit (ch : string) : RegExp.t := RegExp.Unit (RegExp.one_of (units ch)).

(** The pattern of line 54: a prefix [+33], [0033] or [0], optional white
    space, a digit from 1 to 9, then four times: separators (white space,
    dot or hyphen, any number of them) and two digits. *)
Definition phoneRegex : RegExp.t :=
  RegExp.Seq
    (RegExp.Or
       (RegExp.Seq (RegExp.Or (lit "+") (RegExp.Seq (lit "0") (lit "0")))
          (RegExp.Seq (lit "3") (lit "3")))
       (lit "0"))
    (RegExp.Seq (RegExp.Many (RegExp.Unit RegExp.space))
       (RegExp.Seq (RegExp.Unit (RegExp.range "1" "9"))
          (RegExp.Times 4
             (RegExp.Seq
                (RegExp.Many
                   (RegExp.Unit (fun c => RegExp.space c || RegExp.one_of (units ".-") c)))
                (RegExp.Times 2 (RegExp.Unit RegExp.digit)))))).

(** Lines 53-58. *)
Definition isFrenchPhone : ValidatorFn := fun value =>
  if RegExp.matches phoneRegex value then None
  else Some (units "Num" ++ [233%N] ++ units "ro de t" ++ [233%N] ++ units "l"
             ++ [233%N] ++ units "phone invalide.").

(** Lines 63-74. *)
Definition runValidators (value : list N) (validators : list ValidatorFn)
  : ValidationResult :=
  let errors := omap (fun fn => fn value) validators in
  {| isValid := Nat.eqb (length errors) 0; errors := errors |}.

(** What [rules\[key\]] can evaluate to (line 87).  [rules] is an object
    whose prototype is [Object.prototype], as an object literal is: the
    lookup gives the own property of that name when there is one (its value
    may be [undefined], every field of the type is optional), else the member
    of [Object.prototype] of that name, else [undefined]. *)
Inductive Property :=
  | undefined
  | array (fns : list ValidatorFn)
  | inherited.

Definition get (rules : gmap (list N) (option (list ValidatorFn))) (key : list N)
  : Property :=
  match rules !! key with
  | Some (Some fns) => array fns
  | Some None => undefined
  | None => if bool_decide (key ∈ Object.prototype) then inherited else undefined
  end.

(** [rules\[key\] || \[\]]: [undefined] is falsy; an array, a function and
    an object are truthy. *)
Definition or_empty (p : Property) : Property :=
  match p with
  | undefined => array []
  | _ => p
  end.

(** A call either returns or throws; the only error these lines can throw is
    a [TypeError]. *)
Inductive Completion (A : Type) :=
  | Return (a : A)
  | TypeError.
Arguments Return {A} a.
Arguments TypeError {A}.

(** [runValidators(v, fns)] as line 88 calls it, with whatever [fns] is:
    [validators.map] is a function only when [validators] is an array. *)
Definition runValidators_on (value : list N) (validators : Property)
  : Completion ValidationResult :=
  match validators with
  | array fns => Return (runValidators value fns)
  | _ => TypeError
  end.

(** The object [result] of line 84: its own properties, and the validation
    result that has become its prototype, if any. *)
Record Result := {
  own : gmap (list N) ValidationResult;
  prototype : option ValidationResult }.

(** [result\[key\] = r]: the name [__proto__] reaches the setter of
    [Object.prototype], which makes [r] the prototype of [result]; any other
    name becomes an own property. *)
Definition assign (key : list N) (r : ValidationResult) (result : Result) : Result :=
  if bool_decide (key = units "__proto__")
  then {| own := own result; prototype := Some r |}
  else {| own := <[key := r]> (own result); prototype := prototype result |}.

(** Lines 86-88, one turn of the loop; a [TypeError] leaves the loop. *)
Definition iteration (rules : gmap (list N) (option (list ValidatorFn)))
    (result : Completion Result) (kv : list N * list N) : Completion Result :=
  match result with
  | TypeError => TypeError
  | Return result =>
      let v := kv.2 in
      let fns := or_empty (get rules kv.1) in
      match runValidators_on v fns with
      | Return r => Return (assign kv.1 r result)
      | TypeError => TypeError
      end
  end.

(** Lines 80-91.  [values] is the list of the properties that [for ... in]
    visits, in its order, each with [values\[key\]]; [rules] is the map of
    the own properties of the rules object. *)
Definition validateForm (values : list (list N * list N))
    (rules : gmap (list N) (option (list ValidatorFn))) : Completion Result :=
  foldl (iteration rules) (Return {| own := ∅; prototype := None |}) values.

End Validators.

(** The validators that an own property of [rules] gives a field; none when
    the property is missing or [undefined]. *)
Definition own_rules (rules : gmap (list N) (option (list Validators.ValidatorFn)))
    (key : list N) : list Validators.ValidatorFn :=
  default [] (mjoin (rules !! key)).

(** The field has no own property in [rules] and bears the name of a member
    of [Object.prototype]. *)
Definition unruled (rules : gmap (list N) (option (list Validators.ValidatorFn)))
    (key : list N) : Prop :=
  rules !! key = None /\ key ∈ Object.prototype.

(** What a telephone number may be written with. *)
Definition phone_unit (c : N) : Prop :=
  RegExp.digit c = true \/ c = 43%N \/ RegExp.space c = true \/ c = 46%N \/ c = 45%N.

Definition digits (s : list N) : nat := length (List.filter RegExp.digit s).

(** A second sign-in response, with tokens other than the sample ones. *)
Definition second_payload : AuthResponse.t :=
  {| AuthResponse.access_token := "A2";
     AuthResponse.refresh_token := "R2";
     AuthResponse.jti := "j2";
     AuthResponse.user := AuthResponse.user sample_payload |}.

(** * Proofs *)

(** ** Counting handlers *)

Section Counting.
Context {A : Type} (f : A -> bool).

Lemma count_snoc (l : list A) (x : A) :
  length (List.filter f (l ++ [x])) = length (List.filter f l) + (if f x then 1 else 0).
Proof.
  rewrite List.filter_app, length_app. simpl. by destruct (f x).
Qed.

Lemma count_alter (g : A -> A) (l : list A) (i : nat) :
  (forall x, f (g x) = f x) ->
  length (List.filter f (alter g i l)) = length (List.filter f l).
Proof.
  intros Hg. revert i. induction l as [|x l IH]; intros [|i]; simpl; try done.
  - rewrite Hg. by destruct (f x).
  - specialize (IH i). unfold alter in IH. destruct (f x); simpl; lia.
Qed.

Lemma count_insert (l : list A) (i : nat) (old new : A) :
  l !! i = Some old ->
  length (List.filter f (<[i := new]> l)) + (if f old then 1 else 0)
  = length (List.filter f l) + (if f new then 1 else 0).
Proof.
  revert i. induction l as [|x l IH]; intros [|i] Hi; simpl in *; try done.
  - injection Hi as ->. destruct (f old), (f new); simpl; lia.
  - specialize (IH i Hi). destruct (f x); simpl; lia.
Qed.

Lemma count_zero_sub (g : A -> bool) (l : list A) :
  (forall x, g x = true -> f x = true) ->
  length (List.filter f l) = 0 -> length (List.filter g l) = 0.
Proof.
  intros Hgf. induction l as [|x l IH]; simpl; [done|].
  destruct (g x) eqn:Hgx.
  - rewrite (Hgf x Hgx). simpl. lia.
  - destruct (f x); simpl; [lia|done].
Qed.

Lemma count_pos (l : list A) (i : nat) (x : A) :
  l !! i = Some x -> f x = true -> 0 < length (List.filter f l).
Proof.
  revert i. induction l as [|z l IH]; intros [|i] Hi Hx; simpl in *; try done.
  - injection Hi as ->. rewrite Hx. simpl. lia.
  - specialize (IH i Hi Hx). destruct (f z); simpl; lia.
Qed.
End Counting.

(** ** processQueue *)

Lemma settle_form_idemp error token p :
  settle_form error token (settle_form error token p) = settle_form error token p.
Proof. by destruct p, error. Qed.

Lemma settle_form_in_refresh error token p :
  in_refresh (settle_form error token p) = in_refresh p.
Proof. by destruct p, error. Qed.

Lemma settle_form_awaits_read error token p :
  awaits_read (settle_form error token p) = awaits_read p.
Proof. by destruct p, error. Qed.

Lemma settle_promises error token w prom :
  promises (settle error token w prom)
  = alter (settle_form error token) prom (promises w).
Proof.
  apply list_eq. intros i.
  unfold settle, reject, resolve.
  destruct (decide (prom = i)) as [->|Hne].
  - rewrite list_lookup_alter_eq.
    destruct error as [e|]; destruct (promises w !! i) as [p|] eqn:Hp;
      rewrite ?Hp; try done;
      destruct p; simpl; rewrite ?Hp; try done;
      rewrite list_lookup_insert_eq; try done; by eapply lookup_lt_Some.
  - rewrite list_lookup_alter_ne by done.
    destruct error as [e|]; destruct (promises w !! prom) as [p|] eqn:Hp;
      try done; destruct p; simpl; try done;
      by rewrite list_lookup_insert_ne.
Qed.

Lemma settle_frame error token w prom :
  storage (settle error token w prom) = storage w
  /\ isRefreshing (settle error token w prom) = isRefreshing w
  /\ failedQueue (settle error token w prom) = failedQueue w
  /\ defaults_Authorization (settle error token w prom) = defaults_Authorization w
  /\ network (settle error token w prom) = network w.
Proof.
  unfold settle, reject, resolve.
  destruct error; destruct (promises w !! prom) as [[]|]; done.
Qed.

Lemma settle_all_frame error token q w :
  storage (foldl (settle error token) w q) = storage w
  /\ isRefreshing (foldl (settle error token) w q) = isRefreshing w
  /\ failedQueue (foldl (settle error token) w q) = failedQueue w
  /\ defaults_Authorization (foldl (settle error token) w q) = defaults_Authorization w
  /\ network (foldl (settle error token) w q) = network w.
Proof.
  revert w. induction q as [|prom q IH]; intros w; simpl; [done|].
  destruct (IH (settle error token w prom)) as (-> & -> & -> & -> & ->).
  apply settle_frame.
Qed.

Lemma settle_all_lookup error token q w tid :
  promises (foldl (settle error token) w q) !! tid
  = if decide (tid ∈ q) then settle_form error token <$> promises w !! tid
    else promises w !! tid.
Proof.
  revert w. induction q as [|prom q IH]; intros w.
  - simpl. destruct (decide (tid ∈ [])) as [Hin|_]; [|done].
    by apply not_elem_of_nil in Hin.
  - change (foldl (settle error token) w (prom :: q))
      with (foldl (settle error token) (settle error token w prom) q).
    rewrite IH, settle_promises.
    destruct (decide (prom = tid)) as [->|Hne].
    + rewrite list_lookup_alter_eq.
      destruct (decide (tid ∈ tid :: q)) as [_|Hn];
        [|exfalso; apply Hn, elem_of_cons; by left].
      destruct (decide (tid ∈ q)); [|done].
      destruct (promises w !! tid); simpl; [|done].
      by rewrite settle_form_idemp.
    + rewrite list_lookup_alter_ne by done.
      destruct (decide (tid ∈ q)) as [Hin|Hin];
        destruct (decide (tid ∈ prom :: q)) as [Hin'|Hin']; try done.
      * exfalso. apply Hin', elem_of_cons. by right.
      * apply elem_of_cons in Hin' as [?|?]; by simplify_eq.
Qed.

Lemma settle_all_count (f : Handler -> bool) error token q w :
  (forall p, f (settle_form error token p) = f p) ->
  length (List.filter f (promises (foldl (settle error token) w q)))
  = length (List.filter f (promises w)).
Proof.
  intros Hf. revert w. induction q as [|prom q IH]; intros w; simpl; [done|].
  rewrite IH, settle_promises. by apply count_alter.
Qed.

Lemma settle_all_length error token q w :
  length (promises (foldl (settle error token) w q)) = length (promises w).
Proof.
  revert w. induction q as [|prom q IH]; intros w; simpl; [done|].
  by rewrite IH, settle_promises, length_alter.
Qed.

(** Every handler in the queue is settled, nothing else is touched, and the
    queue is emptied. *)
Lemma processQueue_lookup error token w tid :
  promises (processQueue error token w) !! tid
  = if decide (tid ∈ failedQueue w)
    then settle_form error token <$> promises w !! tid
    else promises w !! tid.
Proof. unfold processQueue. simpl. apply settle_all_lookup. Qed.

Lemma processQueue_frame error token w :
  storage (processQueue error token w) = storage w
  /\ isRefreshing (processQueue error token w) = isRefreshing w
  /\ failedQueue (processQueue error token w) = []
  /\ defaults_Authorization (processQueue error token w) = defaults_Authorization w
  /\ network (processQueue error token w) = network w.
Proof.
  unfold processQueue. simpl.
  destruct (settle_all_frame error token (failedQueue w) w) as (-> & -> & _ & -> & ->).
  done.
Qed.

Lemma processQueue_in_flight error token w :
  in_flight (processQueue error token w) = in_flight w.
Proof.
  unfold in_flight, processQueue. simpl.
  apply settle_all_count, settle_form_in_refresh.
Qed.

Lemma processQueue_reads_pending error token w :
  reads_pending (processQueue error token w) = reads_pending w.
Proof.
  unfold reads_pending, processQueue. simpl.
  apply settle_all_count, settle_form_awaits_read.
Qed.

Lemma processQueue_length error token w :
  length (promises (processQueue error token w)) = length (promises w).
Proof. unfold processQueue. simpl. apply settle_all_length. Qed.

(** ** The consistency invariant *)

Lemma wf_init s : wf (init s).
Proof.
  split; simpl.
  - intros tid Hin. by apply not_elem_of_nil in Hin.
  - apply NoDup_nil_2.
  - done.
Qed.

Lemma wf_queue_lt w tid :
  wf w -> tid ∈ failedQueue w -> tid < length (promises w).
Proof.
  intros Hwf Hin. destruct (wf_queue w Hwf tid Hin) as [c Hc].
  by eapply lookup_lt_Some.
Qed.

Lemma in_flight_set_promise w i old new :
  promises w !! i = Some old ->
  in_flight (set_promise i new w) + (if in_refresh old then 1 else 0)
  = in_flight w + (if in_refresh new then 1 else 0).
Proof. intros Hi. unfold in_flight. simpl. by apply count_insert. Qed.

Lemma reads_pending_set_promise w i old new :
  promises w !! i = Some old ->
  reads_pending (set_promise i new w) + (if awaits_read old then 1 else 0)
  = reads_pending w + (if awaits_read new then 1 else 0).
Proof. intros Hi. unfold reads_pending. simpl. by apply count_insert. Qed.

(** A handler inside the refresh branch is not in the queue, so
    [processQueue] leaves it alone. *)
Lemma processQueue_keeps error token w tid p :
  promises w !! tid = Some p -> in_refresh p = true ->
  promises (processQueue error token w) !! tid = Some p.
Proof.
  intros Hp Hr. rewrite processQueue_lookup, Hp.
  destruct (decide (tid ∈ failedQueue w)); [|done].
  simpl. f_equal. by destruct p.
Qed.

Lemma wf_in_branch w tid p :
  wf w -> promises w !! tid = Some p -> in_refresh p = true ->
  isRefreshing w = true /\ in_flight w = 1.
Proof.
  intros Hwf Hp Hr. pose proof (wf_flight w Hwf) as Hf.
  pose proof (count_pos in_refresh _ _ _ Hp Hr) as Hpos.
  fold (in_flight w) in Hpos.
  destruct (isRefreshing w); [done|lia].
Qed.

Lemma catch_block_frame tid err w :
  storage (catch_block tid err w) = storage w
  /\ isRefreshing (catch_block tid err w) = isRefreshing w
  /\ failedQueue (catch_block tid err w) = []
  /\ defaults_Authorization (catch_block tid err w) = defaults_Authorization w
  /\ network (catch_block tid err w) = network w.
Proof.
  unfold catch_block, set_promise.
  cbn [storage isRefreshing failedQueue defaults_Authorization network set_promises].
  apply processQueue_frame.
Qed.

Lemma wf_catch_block w tid p err :
  wf w -> promises w !! tid = Some p -> in_refresh p = true ->
  wf (catch_block tid err w).
Proof.
  intros Hwf Hp Hr.
  pose proof (catch_block_frame tid err w) as (_ & Hfl & Hq & _ & _).
  pose proof (processQueue_keeps (Some err) None w tid p Hp Hr) as Hk.
  split.
  - rewrite Hq. intros ? Hin. by apply not_elem_of_nil in Hin.
  - rewrite Hq. apply NoDup_nil_2.
  - rewrite Hfl, <- (wf_flight w Hwf). unfold catch_block.
    pose proof (in_flight_set_promise _ tid p (AwaitMultiRemove err) Hk) as Hc.
    rewrite processQueue_in_flight, Hr in Hc. simpl in Hc. lia.
Qed.

(** Replacing the state of a handler that is not waiting on the queue. *)
Lemma wf_set_promise w tid old new :
  wf w -> promises w !! tid = Some old ->
  (forall c, old <> AwaitQueue c) ->
  in_refresh new = in_refresh old ->
  wf (set_promise tid new w).
Proof.
  intros Hwf Hp Hnq Hr. split; simpl.
  - intros i Hin. destruct (wf_queue w Hwf i Hin) as [c Hc].
    exists c. rewrite list_lookup_insert_ne; [done|].
    intros ->. rewrite Hp in Hc. injection Hc as ->. by eapply Hnq.
  - apply (wf_nodup w Hwf).
  - pose proof (in_flight_set_promise w tid old new Hp) as Hc.
    rewrite Hr in Hc.
    change (in_flight (set_promise tid new w)
            = if isRefreshing w then 1 else 0).
    rewrite <- (wf_flight w Hwf). lia.
Qed.

Lemma wf_emit w e : wf w -> wf (emit e w).
Proof. intros [? ? ?]. by split. Qed.

Lemma wf_onRejected w error : wf w -> wf (onRejected error w).
Proof.
  intros Hwf.
  assert (Hrej : wf (set_promises (promises w ++ [Rejected error]) w)).
  { split; simpl.
    - intros i Hin. destruct (wf_queue w Hwf i Hin) as [c Hc].
      exists c. rewrite lookup_app_l; [done|]. by eapply lookup_lt_Some.
    - apply (wf_nodup w Hwf).
    - pose proof (count_snoc in_refresh (promises w) (Rejected error)) as Hc.
      unfold in_flight. simpl in *. rewrite Hc, Nat.add_0_r.
      apply (wf_flight w Hwf). }
  unfold onRejected. destruct error as [status c|m]; [|done].
  destruct (bool_decide (status = Some 401%Z) && negb (_retry c)); [|done].
  destruct (isRefreshing w) eqn:Hfl.
  - split; simpl.
    + intros i [Hin| ->%list_elem_of_singleton]%elem_of_app.
      * destruct (wf_queue w Hwf i Hin) as [c' Hc].
        exists c'. rewrite lookup_app_l; [done|]. by eapply lookup_lt_Some.
      * exists c. by rewrite lookup_app_r, Nat.sub_diag.
    + apply NoDup_app. split; [apply (wf_nodup w Hwf)|]. split; [|apply NoDup_singleton].
      intros i Hin ->%list_elem_of_singleton.
      pose proof (wf_queue_lt w _ Hwf Hin). lia.
    + pose proof (count_snoc in_refresh (promises w) (AwaitQueue c)) as Hc.
      unfold in_flight. simpl in *. rewrite Hc, Nat.add_0_r, Hfl.
      pose proof (wf_flight w Hwf) as Hf. by rewrite Hfl in Hf.
  - split; simpl.
    + intros i Hin. destruct (wf_queue w Hwf i Hin) as [c' Hc].
      exists c'. rewrite lookup_app_l; [done|]. by eapply lookup_lt_Some.
    + apply (wf_nodup w Hwf).
    + pose proof (count_snoc in_refresh (promises w) (AwaitGetItem (set_retry c))) as Hc.
      unfold in_flight. simpl in *. rewrite Hc.
      pose proof (wf_flight w Hwf) as Hf. rewrite Hfl in Hf.
      unfold in_flight in Hf. by rewrite Hf.
Qed.

Lemma wf_finally w tid old new :
  wf w -> promises w !! tid = Some old -> in_refresh old = true ->
  in_refresh new = false ->
  wf (finally_block (set_promise tid new w)).
Proof.
  intros Hwf Hp Hr Hn. split; simpl.
  - intros i Hin. destruct (wf_queue w Hwf i Hin) as [c Hc].
    exists c. rewrite list_lookup_insert_ne; [done|].
    intros ->. rewrite Hp in Hc. injection Hc as ->. done.
  - apply (wf_nodup w Hwf).
  - pose proof (in_flight_set_promise w tid old new Hp) as Hc.
    rewrite Hr, Hn in Hc.
    change (in_flight (set_promise tid new w) = 0).
    destruct (wf_in_branch w tid old Hwf Hp Hr) as [_ H1]. lia.
Qed.

Lemma wf_set_storage s w : wf w -> wf (set_storage s w).
Proof. intros [? ? ?]. by split. Qed.

Lemma wf_set_defaults_Authorization a w :
  wf w -> wf (set_defaults_Authorization a w).
Proof. intros [? ? ?]. by split. Qed.

Lemma wf_processQueue error token w : wf w -> wf (processQueue error token w).
Proof.
  intros Hwf.
  pose proof (processQueue_frame error token w) as (_ & Hfl & Hq & _ & _).
  split.
  - rewrite Hq. intros ? Hin. by apply not_elem_of_nil in Hin.
  - rewrite Hq. apply NoDup_nil_2.
  - rewrite processQueue_in_flight, Hfl. apply (wf_flight w Hwf).
Qed.

Lemma wf_success w tid p c token :
  wf w -> promises w !! tid = Some p -> in_refresh p = true ->
  wf (finally_block
        (emit (Request ViaApi c)
           (set_promise tid (Reissued ViaApi c) (processQueue None token w)))).
Proof.
  intros Hwf Hp Hr.
  pose proof (wf_finally _ tid p (Reissued ViaApi c)
                (wf_processQueue None token w Hwf)
                (processQueue_keeps None token w tid p Hp Hr) Hr eq_refl)
    as [? ? ?].
  by split.
Qed.

Lemma wf_step w a : wf w -> wf (step w a).
Proof.
  intros Hwf. destruct a as [e|tid r|tid r|tid r|tid r|tid]; simpl.
  - by apply wf_onRejected.
  - unfold getItemDone.
    destruct (promises w !! tid) as [p|] eqn:Hp; [|done].
    destruct p; try done. destruct r; simpl.
    + apply wf_emit. by eapply wf_set_promise.
    + by eapply wf_catch_block.
  - unfold refreshPostDone.
    destruct (promises w !! tid) as [p|] eqn:Hp; [|done].
    destruct p; try done. destruct r as [[at' rt']|err].
    + by eapply wf_set_promise.
    + by eapply wf_catch_block.
  - unfold multiSetDone.
    destruct (promises w !! tid) as [p|] eqn:Hp; [|done].
    destruct p; try done. destruct r; cbn [AsyncStorage.multiSet].
    + apply (wf_success _ tid (AwaitMultiSet originalRequest access_token refresh_token));
        [|done..].
      apply wf_set_defaults_Authorization, wf_set_storage, Hwf.
    + by eapply wf_catch_block.
  - unfold multiRemoveDone.
    destruct (promises w !! tid) as [p|] eqn:Hp; [|done].
    destruct p; try done. destruct r; simpl.
    + apply (wf_finally (set_storage _ w) tid (AwaitMultiRemove err)); try done.
      destruct Hwf. by split.
    + by apply (wf_finally w tid (AwaitMultiRemove err)).
  - unfold thenCallback.
    destruct (promises w !! tid) as [p|] eqn:Hp; [|done].
    destruct p; try done.
    apply wf_emit. by eapply wf_set_promise.
Qed.

Lemma wf_run acts w : wf w -> wf (run w acts).
Proof.
  revert w. induction acts as [|a acts IH]; intros w Hwf; [done|].
  apply IH. by apply wf_step.
Qed.

(** ** Refresh calls and pending reads *)

Lemma refresh_calls_network w w' :
  network w' = network w -> refresh_calls w' = refresh_calls w.
Proof. unfold refresh_calls. by intros ->. Qed.

Lemma refresh_calls_emit e w :
  refresh_calls (emit e w) = refresh_calls w + (if is_refresh_call e then 1 else 0).
Proof. unfold refresh_calls. cbn [network emit]. apply count_snoc. Qed.

Lemma reads_pending_promises w w' :
  promises w' = promises w -> reads_pending w' = reads_pending w.
Proof. unfold reads_pending. by intros ->. Qed.

Lemma reads_pending_catch_block w tid p err :
  promises w !! tid = Some p -> in_refresh p = true ->
  reads_pending (catch_block tid err w) + (if awaits_read p then 1 else 0)
  = reads_pending w.
Proof.
  intros Hp Hr. unfold catch_block.
  pose proof (reads_pending_set_promise _ tid p (AwaitMultiRemove err)
                (processQueue_keeps (Some err) None w tid p Hp Hr)) as Hc.
  rewrite processQueue_reads_pending in Hc. simpl in Hc. lia.
Qed.

Lemma refresh_calls_catch_block w tid err :
  refresh_calls (catch_block tid err w) = refresh_calls w.
Proof. apply refresh_calls_network, catch_block_frame. Qed.

(** Every refresh call consumes a pending read of the refresh token, and a
    pending read only appears when a fresh 401 is observed while the flag is
    idle. *)
Lemma potential_step w a :
  refresh_calls w <= refresh_calls (step w a)
  /\ refresh_calls (step w a) + reads_pending (step w a)
     <= refresh_calls w + reads_pending w + (if starts_refresh w a then 1 else 0).
Proof.
  destruct a as [e|tid r|tid r|tid r|tid r|tid]; cbn [step starts_refresh].
  - unfold onRejected, fresh401.
    assert (Hrej : forall p, awaits_read p = false ->
      refresh_calls w <= refresh_calls (set_promises (promises w ++ [p]) w)
      /\ refresh_calls (set_promises (promises w ++ [p]) w)
         + reads_pending (set_promises (promises w ++ [p]) w)
         <= refresh_calls w + reads_pending w).
    { intros p Hp. unfold refresh_calls, reads_pending.
      cbn [network promises set_promises]. rewrite count_snoc, Hp. lia. }
    destruct e as [status c|m];
      [|pose proof (Hrej (Rejected (StorageError m)) eq_refl); simpl; lia].
    destruct (bool_decide (status = Some 401%Z) && negb (_retry c));
      [|pose proof (Hrej (Rejected (AxiosError status c)) eq_refl); simpl; lia].
    destruct (isRefreshing w); simpl.
    + unfold refresh_calls, reads_pending.
      cbn [network promises set_promises set_failedQueue]. rewrite count_snoc. simpl. lia.
    + unfold refresh_calls, reads_pending.
      cbn [network promises set_promises set_isRefreshing]. rewrite count_snoc. simpl. lia.
  - unfold getItemDone.
    destruct (promises w !! tid) as [p|] eqn:Hp; [|lia].
    destruct p; try lia. destruct r; cbn [AsyncStorage.getItem].
    + rewrite refresh_calls_emit. cbn [is_refresh_call].
      pose proof (reads_pending_set_promise w tid _ (AwaitRefreshPost originalRequest) Hp) as Hc.
      cbn [awaits_read] in Hc.
      rewrite (reads_pending_promises (set_promise tid (AwaitRefreshPost originalRequest) w)
                 (emit _ _)) by done.
      rewrite (refresh_calls_network w (set_promise _ _ _)) by done. lia.
    + rewrite refresh_calls_catch_block.
      pose proof (reads_pending_catch_block w tid _ (StorageError message) Hp eq_refl).
      lia.
  - unfold refreshPostDone.
    destruct (promises w !! tid) as [p|] eqn:Hp; [|lia].
    destruct p; try lia. destruct r as [[at' rt']|err].
    + pose proof (reads_pending_set_promise w tid _ (AwaitMultiSet originalRequest at' rt') Hp) as Hc.
      cbn [awaits_read] in Hc.
      rewrite (refresh_calls_network w (set_promise _ _ _)) by done. lia.
    + rewrite refresh_calls_catch_block.
      pose proof (reads_pending_catch_block w tid _ err Hp eq_refl).
      cbn [awaits_read] in *. lia.
  - unfold multiSetDone.
    destruct (promises w !! tid) as [p|] eqn:Hp; [|lia].
    destruct p; try lia. destruct r; cbn [AsyncStorage.multiSet].
    + set (w0 := set_defaults_Authorization _ _).
      assert (Hp0 : promises w0 !! tid
                    = Some (AwaitMultiSet originalRequest access_token refresh_token)) by done.
      pose proof (reads_pending_set_promise _ tid _ (Reissued ViaApi originalRequest)
                    (processQueue_keeps None (Some access_token) w0 tid _ Hp0 eq_refl)) as Hc.
      rewrite processQueue_reads_pending in Hc. cbn [awaits_read] in Hc.
      pose proof (processQueue_frame None (Some access_token) w0) as (_ & _ & _ & _ & Hn).
      unfold finally_block.
      rewrite (refresh_calls_network (emit (Request ViaApi originalRequest)
                 (set_promise tid (Reissued ViaApi originalRequest)
                    (processQueue None (Some access_token) w0))) (set_isRefreshing _ _)) by done.
      rewrite refresh_calls_emit. cbn [is_refresh_call].
      rewrite (refresh_calls_network (processQueue None (Some access_token) w0) (set_promise _ _ _)) by done.
      rewrite (refresh_calls_network w0 (processQueue _ _ _)) by done.
      rewrite (refresh_calls_network w w0) by done.
      rewrite (reads_pending_promises (set_promise tid (Reissued ViaApi originalRequest)
                 (processQueue None (Some access_token) w0)) (set_isRefreshing _ _)) by done.
      assert (reads_pending w0 = reads_pending w) by done. lia.
    + rewrite refresh_calls_catch_block.
      pose proof (reads_pending_catch_block w tid _ (StorageError message) Hp eq_refl).
      cbn [awaits_read] in *. lia.
  - unfold multiRemoveDone.
    destruct (promises w !! tid) as [p|] eqn:Hp; [|lia].
    destruct p; try lia. destruct r; cbn [AsyncStorage.multiRemove].
    + set (w0 := set_storage _ w).
      assert (Hp0 : promises w0 !! tid = Some (AwaitMultiRemove err)) by done.
      pose proof (reads_pending_set_promise w0 tid _ (Rejected err) Hp0) as Hc.
      cbn [awaits_read] in Hc. unfold finally_block.
      rewrite (refresh_calls_network w (set_isRefreshing _ _)) by done.
      rewrite (reads_pending_promises (set_promise tid (Rejected err) w0) (set_isRefreshing _ _)) by done.
      assert (reads_pending w0 = reads_pending w) by done. lia.
    + pose proof (reads_pending_set_promise w tid _ (Rejected (StorageError message)) Hp) as Hc.
      cbn [awaits_read] in Hc. unfold finally_block.
      rewrite (refresh_calls_network w (set_isRefreshing _ _)) by done.
      rewrite (reads_pending_promises (set_promise tid (Rejected (StorageError message)) w) (set_isRefreshing _ _)) by done.
      lia.
  - unfold thenCallback.
    destruct (promises w !! tid) as [p|] eqn:Hp; [|lia].
    destruct p; try lia.
    rewrite refresh_calls_emit. cbn [is_refresh_call].
    match goal with |- context [set_promise tid ?n w] =>
      pose proof (reads_pending_set_promise w tid _ n Hp) as Hc;
      rewrite (reads_pending_promises (set_promise tid n w) (emit _ _)) by done;
      rewrite (refresh_calls_network w (set_promise tid n w)) by done
    end.
    cbn [awaits_read] in Hc. lia.
Qed.

Lemma potential_run acts w :
  refresh_calls w <= refresh_calls (run w acts)
  /\ refresh_calls (run w acts) + reads_pending (run w acts)
     <= refresh_calls w + reads_pending w + starts w acts.
Proof.
  revert w. induction acts as [|a acts IH]; intros w.
  - simpl. lia.
  - change (run w (a :: acts)) with (run (step w a) acts).
    cbn [starts]. specialize (IH (step w a)).
    pose proof (potential_step w a). lia.
Qed.

(** ** 401s observed by the response interceptor *)

Lemma onRejected_idle w c :
  isRefreshing w = false -> _retry c = false ->
  onRejected (AxiosError (Some 401%Z) c) w
  = set_promises (promises w ++ [AwaitGetItem (set_retry c)]) (set_isRefreshing true w).
Proof. intros Hfl Hc. unfold onRejected. by rewrite Hfl, Hc. Qed.

Lemma onRejected_refreshing w c :
  isRefreshing w = true -> _retry c = false ->
  onRejected (AxiosError (Some 401%Z) c) w
  = set_promises (promises w ++ [AwaitQueue c])
      (set_failedQueue (failedQueue w ++ [length (promises w)]) w).
Proof. intros Hfl Hc. unfold onRejected. by rewrite Hfl, Hc. Qed.

Lemma arrivals_while_refreshing reqs w :
  isRefreshing w = true -> Forall (fun c => _retry c = false) reqs ->
  run w (unauthorized <$> reqs)
  = set_promises (promises w ++ (AwaitQueue <$> reqs))
      (set_failedQueue (failedQueue w ++ seq (length (promises w)) (length reqs)) w)
  /\ starts w (unauthorized <$> reqs) = 0.
Proof.
  revert w. induction reqs as [|c reqs IH]; intros w Hfl Hall.
  - split; [|done]. destruct w. simpl. by rewrite !app_nil_r.
  - apply Forall_cons in Hall as [Hc Hall].
    change (run w (unauthorized <$> c :: reqs))
      with (run (onRejected (AxiosError (Some 401%Z) c) w) (unauthorized <$> reqs)).
    change (starts w (unauthorized <$> c :: reqs))
      with ((if fresh401 (AxiosError (Some 401%Z) c) && negb (isRefreshing w) then 1 else 0)
            + starts (onRejected (AxiosError (Some 401%Z) c) w) (unauthorized <$> reqs)).
    rewrite onRejected_refreshing by done.
    destruct (IH (set_promises (promises w ++ [AwaitQueue c])
                   (set_failedQueue (failedQueue w ++ [length (promises w)]) w)))
      as [-> ->]; [done..|].
    split; [|by rewrite Hfl, andb_false_r].
    destruct w. simpl. rewrite length_app. simpl.
    rewrite <- !(assoc_L (++)). simpl. by rewrite Nat.add_1_r.
Qed.

Lemma arrivals_from_idle c0 reqs w :
  isRefreshing w = false -> Forall (fun c => _retry c = false) (c0 :: reqs) ->
  run w (unauthorized <$> c0 :: reqs)
  = {| storage := storage w;
       isRefreshing := true;
       failedQueue := failedQueue w ++ seq (S (length (promises w))) (length reqs);
       defaults_Authorization := defaults_Authorization w;
       promises := promises w ++ AwaitGetItem (set_retry c0) :: (AwaitQueue <$> reqs);
       network := network w |}
  /\ starts w (unauthorized <$> c0 :: reqs) = 1.
Proof.
  intros Hfl [Hc Hall]%Forall_cons.
  change (run w (unauthorized <$> c0 :: reqs))
    with (run (onRejected (AxiosError (Some 401%Z) c0) w) (unauthorized <$> reqs)).
  change (starts w (unauthorized <$> c0 :: reqs))
    with ((if fresh401 (AxiosError (Some 401%Z) c0) && negb (isRefreshing w) then 1 else 0)
          + starts (onRejected (AxiosError (Some 401%Z) c0) w) (unauthorized <$> reqs)).
  rewrite onRejected_idle by done.
  destruct (arrivals_while_refreshing reqs
              (set_promises (promises w ++ [AwaitGetItem (set_retry c0)])
                 (set_isRefreshing true w))) as [-> ->]; [done..|].
  split.
  - simpl. rewrite length_app. simpl. rewrite <- (assoc_L (++)). simpl.
    by rewrite Nat.add_1_r.
  - unfold fresh401. rewrite Hfl, Hc. by rewrite bool_decide_eq_true_2.
Qed.

Lemma idle_no_pending_read w :
  wf w -> isRefreshing w = false -> reads_pending w = 0.
Proof.
  intros Hwf Hfl. pose proof (wf_flight w Hwf) as Hf. rewrite Hfl in Hf.
  unfold reads_pending. eapply (count_zero_sub in_refresh); [|exact Hf].
  by intros [].
Qed.

(** C1 (amended).  From a consistent state with the flag idle, let the
    requests [c0 :: reqs], none of them retried yet, each receive a 401
    before the refresh settles.  The first 401 sets the flag and starts the
    one refresh branch; every further 401 only appends a waiter to the queue
    (the store, the defaults and the network are untouched, no second branch
    starts).  The branch then calls the refresh endpoint exactly once when
    the read of the stored refresh token completes, and not at all when that
    read is rejected; as long as no later 401 is observed with the flag idle
    again, that is the number of refresh calls of the whole run. *)
Theorem single_flight_refresh (w : World) (c0 : RequestConfig)
    (reqs : list RequestConfig) (r : ReadOutcome) (rest : list Action) :
  wf w -> isRefreshing w = false ->
  Forall (fun c => _retry c = false) (c0 :: reqs) ->
  let tid0 := length (promises w) in
  let w1 := run w (unauthorized <$> c0 :: reqs) in
  let w2 := step w1 (GetItemDone tid0 r) in
  starts w2 rest = 0 ->
  step w (unauthorized c0)
  = set_promises (promises w ++ [AwaitGetItem (set_retry c0)]) (set_isRefreshing true w)
  /\ w1 = {| storage := storage w;
             isRefreshing := true;
             failedQueue := failedQueue w ++ seq (S tid0) (length reqs);
             defaults_Authorization := defaults_Authorization w;
             promises := promises w ++ AwaitGetItem (set_retry c0) :: (AwaitQueue <$> reqs);
             network := network w |}
  /\ starts w (unauthorized <$> c0 :: reqs) = 1
  /\ in_flight w1 = 1
  /\ refresh_calls w1 = refresh_calls w
  /\ refresh_calls (run w2 rest)
     = refresh_calls w + match r with ReadOk => 1 | ReadFail _ => 0 end.
Proof.
  intros Hwf Hfl Hall tid0 w1 w2 Hrest.
  destruct (arrivals_from_idle c0 reqs w Hfl Hall) as [Hw1 Hst].
  pose proof Hall as [Hc0 _]%Forall_cons.
  assert (Hwf1 : wf w1) by by apply wf_run.
  assert (Hfl1 : isRefreshing w1 = true) by (subst w1; by rewrite Hw1).
  assert (Hp1 : promises w1 !! tid0 = Some (AwaitGetItem (set_retry c0))).
  { subst w1. rewrite Hw1. cbn [promises]. by rewrite list_lookup_middle. }
  assert (Hif : in_flight w1 = 1).
  { pose proof (wf_flight w1 Hwf1) as Hf. by rewrite Hfl1 in Hf. }
  assert (Hrc : refresh_calls w1 = refresh_calls w).
  { apply refresh_calls_network. subst w1. by rewrite Hw1. }
  assert (Hrp : reads_pending w1 = 1).
  { pose proof (potential_run (unauthorized <$> c0 :: reqs) w) as [_ Hle].
    fold w1 in Hle. rewrite Hst, Hrc, (idle_no_pending_read w Hwf Hfl) in Hle.
    pose proof (count_pos awaits_read _ _ _ Hp1 eq_refl) as Hpos.
    fold (reads_pending w1) in Hpos. lia. }
  split; [by apply onRejected_idle|].
  split; [exact Hw1|]. split; [exact Hst|]. split; [exact Hif|]. split; [exact Hrc|].
  assert (H2 : refresh_calls w2
               = refresh_calls w + match r with ReadOk => 1 | ReadFail _ => 0 end
               /\ reads_pending w2 = 0).
  { subst w2. cbn [step]. unfold getItemDone. rewrite Hp1.
    destruct r; cbn [AsyncStorage.getItem].
    - rewrite refresh_calls_emit. cbn [is_refresh_call].
      rewrite (refresh_calls_network w1 (set_promise _ _ _)) by done.
      pose proof (reads_pending_set_promise w1 tid0 _ (AwaitRefreshPost (set_retry c0)) Hp1) as Hc.
      cbn [awaits_read] in Hc.
      rewrite (reads_pending_promises (set_promise tid0 (AwaitRefreshPost (set_retry c0)) w1)
                 (emit _ _)) by done.
      lia.
    - rewrite refresh_calls_catch_block.
      pose proof (reads_pending_catch_block w1 tid0 _ (StorageError message) Hp1 eq_refl) as Hc.
      cbn [awaits_read] in Hc. lia. }
  destruct H2 as [Hc2 Hr2].
  pose proof (potential_run rest w2) as [Hge Hle].
  rewrite Hrest, Hr2 in Hle. lia.
Qed.

Lemma single_flight_refresh_witness :
  refresh_calls
    (run (step (run (init store0) (unauthorized <$> [cfg "/me"; cfg "/wallet"; cfg "/kyc"]))
            (GetItemDone 0 ReadOk))
       [RefreshPostDone 0 (Fulfilled ("A1", "R1")); MultiSetDone 0 WriteOk;
        ThenCallback 1; ThenCallback 2])
  = 1.
Proof.
  apply (single_flight_refresh (init store0) (cfg "/me") [cfg "/wallet"; cfg "/kyc"] ReadOk).
  - apply wf_init.
  - reflexivity.
  - repeat constructor.
  - vm_compute. reflexivity.
Defined.

(** C1 as stated fails: when the read of the refresh token is rejected, two
    concurrent 401s lead to no call of the refresh endpoint at all; and a
    401 on a request that carries the retry marker is rejected, it neither
    starts a refresh nor joins the queue. *)
Lemma no_refresh_call_when_read_fails :
  let w := run (init store0)
             [unauthorized (cfg "/me"); unauthorized (cfg "/wallet");
              GetItemDone 0 (ReadFail "storage unavailable");
              MultiRemoveDone 0 WriteOk] in
  let w' := step (init store0) (unauthorized (set_retry (cfg "/me"))) in
  refresh_calls w = 0 /\ refresh_calls w <> 1
  /\ isRefreshing w = false
  /\ promises w = [Rejected (StorageError "storage unavailable");
                   Rejected (StorageError "storage unavailable")]
  /\ isRefreshing w' = false
  /\ promises w' = [Rejected (AxiosError (Some 401%Z) (set_retry (cfg "/me")))].
Proof. vm_compute. repeat split; congruence. Qed.

(** ** The handler only appends promises *)

Lemma onRejected_frame error w :
  storage (onRejected error w) = storage w
  /\ defaults_Authorization (onRejected error w) = defaults_Authorization w
  /\ network (onRejected error w) = network w
  /\ exists p : Handler, promises (onRejected error w) = (promises w ++ [p])%list.
Proof.
  unfold onRejected. destruct error as [status c|m]; [|by eauto 10].
  destruct (bool_decide (status = Some 401%Z) && negb (_retry c)); [|by eauto 10].
  destruct (isRefreshing w); by eauto 10.
Qed.

Lemma arrivals_frame errors w :
  storage (run w (Arrive <$> errors)) = storage w
  /\ defaults_Authorization (run w (Arrive <$> errors)) = defaults_Authorization w
  /\ network (run w (Arrive <$> errors)) = network w
  /\ forall tid p, promises w !! tid = Some p ->
       promises (run w (Arrive <$> errors)) !! tid = Some p.
Proof.
  revert w. induction errors as [|e errors IH]; intros w; [done|].
  change (run w (Arrive <$> e :: errors))
    with (run (onRejected e w) (Arrive <$> errors)).
  destruct (IH (onRejected e w)) as (-> & -> & -> & Hk).
  destruct (onRejected_frame e w) as (-> & -> & -> & p & Hp).
  repeat split; try done.
  intros tid q Hq. apply Hk. rewrite Hp, lookup_app_l; [done|].
  by eapply lookup_lt_Some.
Qed.

(** ** The callbacks of resolved waiters *)

Lemma thenCallback_lookup tid' w tid :
  promises (thenCallback tid' w) !! tid
  = if decide (tid = tid') then callback_form <$> promises w !! tid
    else promises w !! tid.
Proof.
  unfold thenCallback.
  destruct (decide (tid = tid')) as [->|Hne].
  - destruct (promises w !! tid') as [p|] eqn:Hp; [|by rewrite Hp].
    destruct p; try by rewrite Hp.
    cbn [promises emit set_promise set_promises].
    rewrite list_lookup_insert_eq by by eapply lookup_lt_Some.
    simpl. unfold with_token. by destruct (headers originalRequest).
  - destruct (promises w !! tid') as [p|] eqn:Hp; [|done].
    destruct p; try done.
    cbn [promises emit set_promise set_promises].
    by rewrite list_lookup_insert_ne.
Qed.

Lemma thenCallback_network tid w :
  network (thenCallback tid w)
  = network w ++ match promises w !! tid with
                 | Some (QueueResolved c token) => [Request ViaAxios (with_token token c)]
                 | _ => []
                 end.
Proof.
  unfold thenCallback.
  destruct (promises w !! tid) as [p|]; [|by rewrite app_nil_r].
  destruct p; try by rewrite app_nil_r.
  cbn [network emit set_promise set_promises]. unfold with_token.
  by destruct (headers originalRequest).
Qed.

Lemma callbacks_keep q w tid p :
  promises w !! tid = Some p -> callback_form p = p ->
  promises (run w (ThenCallback <$> q)) !! tid = Some p.
Proof.
  revert w. induction q as [|a q IH]; intros w Hp Hcb; [done|].
  change (run w (ThenCallback <$> a :: q))
    with (run (thenCallback a w) (ThenCallback <$> q)).
  apply IH; [|done]. rewrite thenCallback_lookup, Hp.
  destruct (decide (tid = a)); [|done]. simpl. by rewrite Hcb.
Qed.

Lemma callbacks_network q w e :
  e ∈ network w -> e ∈ network (run w (ThenCallback <$> q)).
Proof.
  revert w. induction q as [|a q IH]; intros w He; [done|].
  change (run w (ThenCallback <$> a :: q))
    with (run (thenCallback a w) (ThenCallback <$> q)).
  apply IH. rewrite thenCallback_network. apply elem_of_app. by left.
Qed.

Lemma callbacks_reissue q w tid c token :
  tid ∈ q -> promises w !! tid = Some (QueueResolved c token) ->
  promises (run w (ThenCallback <$> q)) !! tid
  = Some (Reissued ViaAxios (with_token token c))
  /\ Request ViaAxios (with_token token c) ∈ network (run w (ThenCallback <$> q)).
Proof.
  revert w. induction q as [|a q IH]; intros w Hin Hp.
  - by apply not_elem_of_nil in Hin.
  - change (run w (ThenCallback <$> a :: q))
      with (run (thenCallback a w) (ThenCallback <$> q)).
    destruct (decide (tid = a)) as [->|Hne].
    + split.
      * apply callbacks_keep; [|done].
        rewrite thenCallback_lookup, Hp. by rewrite decide_True.
      * apply callbacks_network. rewrite thenCallback_network, Hp.
        apply elem_of_app. right. by apply list_elem_of_singleton.
    + apply IH.
      * apply elem_of_cons in Hin as [?|?]; done.
      * rewrite thenCallback_lookup, Hp. by rewrite decide_False.
Qed.

Lemma callbacks_no_start q w : starts w (ThenCallback <$> q) = 0.
Proof.
  revert w. induction q as [|a q IH]; intros w; [done|].
  change (starts w (ThenCallback <$> a :: q))
    with (0 + starts (thenCallback a w) (ThenCallback <$> q)).
  by rewrite IH.
Qed.

(** ** The two ways out of the refresh branch *)

Lemma multiSetDone_ok w tid0 c0 a0 r0 :
  promises w !! tid0 = Some (AwaitMultiSet c0 a0 r0) ->
  let w' := multiSetDone tid0 WriteOk w in
  storage w' = <[Config.STORAGE_KEYS.REFRESH_TOKEN := r0]>
                 (<[Config.STORAGE_KEYS.ACCESS_TOKEN := a0]> (storage w))
  /\ isRefreshing w' = false
  /\ failedQueue w' = []
  /\ defaults_Authorization w' = Some ("Bearer " +:+ a0)
  /\ network w' = network w ++ [Request ViaApi c0]
  /\ promises w' !! tid0 = Some (Reissued ViaApi c0)
  /\ forall tid, tid <> tid0 ->
       promises w' !! tid
       = if decide (tid ∈ failedQueue w)
         then settle_form None (Some a0) <$> promises w !! tid
         else promises w !! tid.
Proof.
  intros Hp w'. subst w'. unfold multiSetDone. rewrite Hp.
  cbn [AsyncStorage.multiSet].
  set (w0 := set_defaults_Authorization _ _).
  pose proof (processQueue_frame None (Some a0) w0) as (Hs & _ & Hq & Hd & Hn).
  unfold finally_block.
  cbn [storage isRefreshing failedQueue defaults_Authorization network promises
       set_isRefreshing emit set_promise set_promises].
  rewrite Hs, Hq, Hd, Hn. repeat split; try done.
  - apply list_lookup_insert_eq. rewrite processQueue_length.
    by eapply lookup_lt_Some.
  - intros tid Hne. rewrite list_lookup_insert_ne by done.
    by rewrite processQueue_lookup.
Qed.

Lemma catch_block_lookup tid0 err w tid :
  tid <> tid0 ->
  promises (catch_block tid0 err w) !! tid
  = if decide (tid ∈ failedQueue w)
    then settle_form (Some err) None <$> promises w !! tid
    else promises w !! tid.
Proof.
  intros Hne. unfold catch_block. cbn [promises set_promise set_promises].
  rewrite list_lookup_insert_ne by done. apply processQueue_lookup.
Qed.

Lemma catch_block_self tid0 err w p :
  promises w !! tid0 = Some p ->
  promises (catch_block tid0 err w) !! tid0 = Some (AwaitMultiRemove err).
Proof.
  intros Hp. unfold catch_block. cbn [promises set_promise set_promises].
  apply list_lookup_insert_eq. rewrite processQueue_length.
  by eapply lookup_lt_Some.
Qed.

Lemma multiRemoveDone_spec w tid0 err r :
  promises w !! tid0 = Some (AwaitMultiRemove err) ->
  let w' := multiRemoveDone tid0 r w in
  isRefreshing w' = false
  /\ failedQueue w' = failedQueue w
  /\ network w' = network w
  /\ (forall tid, tid <> tid0 -> promises w' !! tid = promises w !! tid)
  /\ match r with
     | WriteOk =>
         storage w' = delete Config.STORAGE_KEYS.REFRESH_TOKEN
                        (delete Config.STORAGE_KEYS.ACCESS_TOKEN (storage w))
         /\ promises w' !! tid0 = Some (Rejected err)
     | WriteFail m =>
         storage w' = storage w
         /\ promises w' !! tid0 = Some (Rejected (StorageError m))
     end.
Proof.
  intros Hp w'. subst w'. unfold multiRemoveDone. rewrite Hp.
  destruct r; cbn [AsyncStorage.multiRemove]; unfold finally_block;
    cbn [storage isRefreshing failedQueue network promises
         set_isRefreshing set_storage set_promise set_promises];
    repeat split; try done.
  all: try (intros tid Hne; by rewrite list_lookup_insert_ne).
  all: apply list_lookup_insert_eq; by eapply lookup_lt_Some.
Qed.

Lemma refreshPostDone_ok w tid0 c0 a0 r0 :
  promises w !! tid0 = Some (AwaitRefreshPost c0) ->
  refreshPostDone tid0 (Fulfilled (a0, r0)) w
  = set_promise tid0 (AwaitMultiSet c0 a0 r0) w.
Proof. intros Hp. unfold refreshPostDone. by rewrite Hp. Qed.

Lemma refreshPostDone_fail w tid0 c0 err :
  promises w !! tid0 = Some (AwaitRefreshPost c0) ->
  refreshPostDone tid0 (RejectedWith err) w = catch_block tid0 err w.
Proof. intros Hp. unfold refreshPostDone. by rewrite Hp. Qed.

(** C3 (amended).  If the refresh call succeeds with new tokens and the
    write of the two tokens to the store completes, then afterwards the store
    holds exactly the new access token and the new refresh token under their
    keys (every other key as before), every handler queued by then (also the
    ones that [mid] queued after the call returned) is resolved with the new
    access token and re-issues its request with it, the original request is
    re-issued through [api], the queue is empty, the flag is idle, and no
    further refresh call was made. *)
Theorem refresh_success (w : World) (tid0 : nat) (c0 : RequestConfig)
    (new_access new_refresh : string) (mid : list Thrown) :
  wf w -> promises w !! tid0 = Some (AwaitRefreshPost c0) ->
  let w1 := step w (RefreshPostDone tid0 (Fulfilled (new_access, new_refresh))) in
  let w2 := run w1 (Arrive <$> mid) in
  let w3 := step w2 (MultiSetDone tid0 WriteOk) in
  let w4 := run w3 (ThenCallback <$> failedQueue w2) in
  storage w3 = <[Config.STORAGE_KEYS.REFRESH_TOKEN := new_refresh]>
                 (<[Config.STORAGE_KEYS.ACCESS_TOKEN := new_access]> (storage w))
  /\ storage w3 !! Config.STORAGE_KEYS.ACCESS_TOKEN = Some new_access
  /\ storage w3 !! Config.STORAGE_KEYS.REFRESH_TOKEN = Some new_refresh
  /\ (forall tid, tid ∈ failedQueue w2 ->
        exists c, promises w2 !! tid = Some (AwaitQueue c)
          /\ promises w3 !! tid = Some (QueueResolved c (Some new_access))
          /\ promises w4 !! tid = Some (Reissued ViaAxios (with_token (Some new_access) c))
          /\ Request ViaAxios (with_token (Some new_access) c) ∈ network w4)
  /\ promises w3 !! tid0 = Some (Reissued ViaApi c0)
  /\ network w3 = network w ++ [Request ViaApi c0]
  /\ isRefreshing w3 = false
  /\ failedQueue w3 = []
  /\ refresh_calls w4 = refresh_calls w.
Proof.
  intros Hwf Hp w1 w2 w3 w4.
  assert (Hw1 : w1 = set_promise tid0 (AwaitMultiSet c0 new_access new_refresh) w)
    by by apply refreshPostDone_ok.
  assert (Hp1 : promises w1 !! tid0 = Some (AwaitMultiSet c0 new_access new_refresh)).
  { rewrite Hw1. apply list_lookup_insert_eq. by eapply lookup_lt_Some. }
  destruct (arrivals_frame mid w1) as (Hs2 & _ & Hn2 & Hk2). fold w2 in Hs2, Hn2, Hk2.
  assert (Hwf2 : wf w2) by (apply wf_run; by apply wf_step).
  pose proof (Hk2 _ _ Hp1) as Hp2.
  destruct (multiSetDone_ok w2 tid0 c0 new_access new_refresh Hp2)
    as (Hs3 & Hfl3 & Hq3 & _ & Hn3 & Hp3 & Hoth).
  change (multiSetDone tid0 WriteOk w2) with w3 in *.
  assert (Hsw : storage w2 = storage w) by (rewrite Hs2, Hw1; done).
  assert (Hnw : network w2 = network w) by (rewrite Hn2, Hw1; done).
  rewrite Hsw in Hs3. rewrite Hnw in Hn3.
  split; [exact Hs3|].
  split; [rewrite Hs3; by rewrite lookup_insert_ne, lookup_insert_eq|].
  split; [rewrite Hs3; by rewrite lookup_insert_eq|].
  split.
  { intros tid Hin. destruct (wf_queue w2 Hwf2 tid Hin) as [c Hc].
    exists c. split; [exact Hc|].
    assert (Hne : tid <> tid0) by (intros ->; congruence).
    assert (Hr3 : promises w3 !! tid = Some (QueueResolved c (Some new_access))).
    { rewrite (Hoth tid Hne), Hc. by rewrite decide_True. }
    split; [exact Hr3|]. by apply callbacks_reissue. }
  split; [exact Hp3|]. split; [exact Hn3|]. split; [exact Hfl3|]. split; [exact Hq3|].
  assert (Hwf3 : wf w3) by by apply wf_step.
  pose proof (potential_run (ThenCallback <$> failedQueue w2) w3) as [Hge Hle].
  fold w4 in Hge, Hle.
  rewrite callbacks_no_start, (idle_no_pending_read w3 Hwf3 Hfl3) in Hle.
  assert (Hc3 : refresh_calls w3 = refresh_calls w).
  { unfold refresh_calls. rewrite Hn3, count_snoc. simpl. lia. }
  lia.
Qed.

Lemma refresh_success_witness :
  let w3 := run refreshing_world
              [RefreshPostDone 0 (Fulfilled ("A1", "R1"));
               Arrive (AxiosError (Some 401%Z) (cfg "/kyc"));
               MultiSetDone 0 WriteOk] in
  storage w3 !! Config.STORAGE_KEYS.ACCESS_TOKEN = Some "A1"
  /\ storage w3 !! Config.STORAGE_KEYS.REFRESH_TOKEN = Some "R1".
Proof.
  pose proof (refresh_success refreshing_world 0 (set_retry (cfg "/me")) "A1" "R1"
                [AxiosError (Some 401%Z) (cfg "/kyc")]
                (wf_run _ _ (wf_init store0)) eq_refl) as (_ & Ha & Hr & _).
  split; [exact Ha|exact Hr].
Defined.

(** C3 as stated fails: the refresh call returns new tokens but the write to
    the store is rejected; the store keeps the old tokens and the queued
    request is rejected instead of retried. *)
Lemma refresh_success_write_fails :
  let w := run refreshing_world
             [RefreshPostDone 0 (Fulfilled ("A1", "R1"));
              MultiSetDone 0 (WriteFail "disk full");
              MultiRemoveDone 0 (WriteFail "disk full")] in
  storage w !! Config.STORAGE_KEYS.ACCESS_TOKEN = Some "A0"
  /\ storage w !! Config.STORAGE_KEYS.ACCESS_TOKEN <> Some "A1"
  /\ storage w !! Config.STORAGE_KEYS.REFRESH_TOKEN = Some "R0"
  /\ promises w !! 1 = Some (Rejected (StorageError "disk full"))
  /\ isRefreshing w = false.
Proof. vm_compute. repeat split; congruence. Qed.

(** C2 (amended).  If the refresh call fails, every handler queued at that
    moment is rejected with that same error and the queue is emptied; nothing
    is sent to the network afterwards (the refresh is not retried) and the
    flag returns to idle.  When the removal from the store completes, both
    token keys are absent and the handler that started the refresh rejects
    with the refresh error; when the removal is rejected, the store is left as
    it was and that handler rejects with the storage error. *)
Theorem refresh_failure (w : World) (tid0 : nat) (c0 : RequestConfig)
    (err : Thrown) (r : WriteOutcome) :
  wf w -> promises w !! tid0 = Some (AwaitRefreshPost c0) ->
  let w1 := step w (RefreshPostDone tid0 (RejectedWith err)) in
  let w2 := step w1 (MultiRemoveDone tid0 r) in
  (forall tid, tid ∈ failedQueue w ->
     promises w1 !! tid = Some (Rejected err)
     /\ promises w2 !! tid = Some (Rejected err))
  /\ failedQueue w1 = []
  /\ network w2 = network w
  /\ refresh_calls w2 = refresh_calls w
  /\ isRefreshing w2 = false
  /\ match r with
     | WriteOk =>
         storage w2 !! Config.STORAGE_KEYS.ACCESS_TOKEN = None
         /\ storage w2 !! Config.STORAGE_KEYS.REFRESH_TOKEN = None
         /\ promises w2 !! tid0 = Some (Rejected err)
     | WriteFail m =>
         storage w2 = storage w
         /\ promises w2 !! tid0 = Some (Rejected (StorageError m))
     end.
Proof.
  intros Hwf Hp w1 w2.
  assert (Hw1 : w1 = catch_block tid0 err w)
    by exact (refreshPostDone_fail w tid0 c0 err Hp).
  destruct (catch_block_frame tid0 err w) as (Hs1 & _ & Hq1 & _ & Hn1).
  pose proof (catch_block_self tid0 err w _ Hp) as Hp1.
  rewrite <- Hw1 in Hs1, Hq1, Hn1, Hp1.
  destruct (multiRemoveDone_spec w1 tid0 err r Hp1) as (Hfl2 & _ & Hn2 & Hoth & Hr).
  change (multiRemoveDone tid0 r w1) with w2 in *.
  assert (Hnet : network w2 = network w) by by rewrite Hn2.
  split.
  { intros tid Hin. destruct (wf_queue w Hwf tid Hin) as [c Hc].
    assert (Hne : tid <> tid0) by (intros ->; congruence).
    assert (H1 : promises w1 !! tid = Some (Rejected err)).
    { rewrite Hw1, catch_block_lookup by done. rewrite Hc. by rewrite decide_True. }
    split; [exact H1|]. by rewrite Hoth. }
  split; [exact Hq1|]. split; [exact Hnet|].
  split; [by apply refresh_calls_network|]. split; [exact Hfl2|].
  destruct r.
  - destruct Hr as [Hs2 Hp2]. rewrite Hs1 in Hs2.
    split; [|split; [|exact Hp2]]; rewrite Hs2.
    + by rewrite lookup_delete_ne, lookup_delete_eq.
    + by rewrite lookup_delete_eq.
  - destruct Hr as [Hs2 Hp2]. split; [by rewrite Hs2|exact Hp2].
Qed.

Lemma refresh_failure_witness :
  let w2 := run refreshing_world
              [RefreshPostDone 0 (RejectedWith (AxiosError (Some 403%Z) (cfg "/refresh")));
               MultiRemoveDone 0 WriteOk] in
  isRefreshing w2 = false /\ refresh_calls w2 = refresh_calls refreshing_world.
Proof.
  pose proof (refresh_failure refreshing_world 0 (set_retry (cfg "/me"))
                (AxiosError (Some 403%Z) (cfg "/refresh")) WriteOk
                (wf_run _ _ (wf_init store0)) eq_refl) as (_ & _ & _ & Hc & Hf & _).
  split; [exact Hf|exact Hc].
Defined.

(** C2 as stated fails: the refresh call fails and the removal from the
    store is rejected as well; both tokens stay in the store and the caller
    receives the storage error, not the refresh error. *)
Lemma refresh_failure_remove_fails :
  let w := run refreshing_world
             [RefreshPostDone 0 (RejectedWith (AxiosError (Some 403%Z) (cfg "/refresh")));
              MultiRemoveDone 0 (WriteFail "disk full")] in
  storage w !! Config.STORAGE_KEYS.ACCESS_TOKEN = Some "A0"
  /\ storage w !! Config.STORAGE_KEYS.REFRESH_TOKEN = Some "R0"
  /\ storage w !! Config.STORAGE_KEYS.ACCESS_TOKEN <> None
  /\ promises w !! 0 = Some (Rejected (StorageError "disk full"))
  /\ promises w !! 1 = Some (Rejected (AxiosError (Some 403%Z) (cfg "/refresh"))).
Proof. vm_compute. repeat split; congruence. Qed.

(** A 401 observed after the failure was broadcast but before the removal
    completes finds the flag still set: its handler joins the emptied queue
    and stays there when the branch returns. *)
Example waiter_queued_during_removal :
  let w := run refreshing_world
             [RefreshPostDone 0 (RejectedWith (AxiosError None (cfg "/refresh")));
              unauthorized (cfg "/kyc");
              MultiRemoveDone 0 WriteOk] in
  isRefreshing w = false /\ failedQueue w = [2]
  /\ promises w !! 2 = Some (AwaitQueue (cfg "/kyc")).
Proof. vm_compute. repeat split; congruence. Qed.

(** C9.  When the refresh succeeds, a queued handler whose request config
    has no headers object re-issues the config as it is, without an
    Authorization header; the bearer token is written only into a headers
    object that is already there. *)
Theorem queued_retry_headers (w : World) (tid0 tid : nat) (c0 c : RequestConfig)
    (new_access new_refresh : string) :
  promises w !! tid0 = Some (AwaitMultiSet c0 new_access new_refresh) ->
  tid ∈ failedQueue w ->
  promises w !! tid = Some (AwaitQueue c) ->
  let w' := run w [MultiSetDone tid0 WriteOk; ThenCallback tid] in
  (headers c = None ->
     promises w' !! tid = Some (Reissued ViaAxios c)
     /\ last (network w') = Some (Request ViaAxios c))
  /\ (forall h, headers c = Some h ->
        let c' := set_headers (<["Authorization" := "Bearer " +:+ new_access]> h) c in
        promises w' !! tid = Some (Reissued ViaAxios c')
        /\ last (network w') = Some (Request ViaAxios c')).
Proof.
  intros Hp Hin Hc w'.
  destruct (multiSetDone_ok w tid0 c0 new_access new_refresh Hp)
    as (_ & _ & _ & _ & _ & _ & Hoth).
  assert (Hne : tid <> tid0) by (intros ->; congruence).
  assert (Hr : promises (multiSetDone tid0 WriteOk w) !! tid
               = Some (QueueResolved c (Some new_access))).
  { rewrite (Hoth tid Hne), Hc. by rewrite decide_True. }
  assert (Hl : promises w' !! tid
               = Some (Reissued ViaAxios (with_token (Some new_access) c))).
  { subst w'. cbn [run foldl step]. rewrite thenCallback_lookup, Hr.
    by rewrite decide_True. }
  assert (Hn : last (network w')
               = Some (Request ViaAxios (with_token (Some new_access) c))).
  { subst w'. cbn [run foldl step]. rewrite thenCallback_network, Hr.
    apply last_snoc. }
  unfold with_token in Hl, Hn. split.
  - intros Hh. rewrite Hh in Hl, Hn. done.
  - intros h Hh c'. rewrite Hh in Hl, Hn. done.
Qed.

Lemma queued_retry_headers_witness :
  let bare := {| url := "/wallet"; headers := None; _retry := false |} in
  let w := run (init store0)
             [unauthorized (cfg "/me"); unauthorized bare; GetItemDone 0 ReadOk;
              RefreshPostDone 0 (Fulfilled ("A1", "R1"))] in
  let w' := run w [MultiSetDone 0 WriteOk; ThenCallback 1] in
  promises w' !! 1 = Some (Reissued ViaAxios bare)
  /\ last (network w') = Some (Request ViaAxios bare).
Proof.
  intros bare w w'.
  assert (Hin : 1 ∈ failedQueue w) by (apply list_elem_of_singleton; reflexivity).
  exact (proj1 (queued_retry_headers w 0 1 (set_retry (cfg "/me")) bare "A1" "R1"
                  eq_refl Hin eq_refl) eq_refl).
Defined.

(** ** Leaving the refresh branch *)

Lemma getItemDone_self w tid c r :
  promises w !! tid = Some (AwaitGetItem c) ->
  promises (getItemDone tid r w) !! tid
  = Some (match r with
          | ReadOk => AwaitRefreshPost c
          | ReadFail m => AwaitMultiRemove (StorageError m)
          end).
Proof.
  intros Hp. unfold getItemDone. rewrite Hp.
  destruct r; cbn [AsyncStorage.getItem].
  - cbn [promises emit set_promise set_promises].
    apply list_lookup_insert_eq. by eapply lookup_lt_Some.
  - by eapply catch_block_self.
Qed.

Lemma refreshPostDone_self w tid c r :
  promises w !! tid = Some (AwaitRefreshPost c) ->
  promises (refreshPostDone tid r w) !! tid
  = Some (match r with
          | Fulfilled (a, b) => AwaitMultiSet c a b
          | RejectedWith err => AwaitMultiRemove err
          end).
Proof.
  intros Hp. unfold refreshPostDone. rewrite Hp.
  destruct r as [[a b]|err].
  - cbn [promises set_promise set_promises].
    apply list_lookup_insert_eq. by eapply lookup_lt_Some.
  - by eapply catch_block_self.
Qed.

Lemma multiSetDone_fail_self w tid c a b m :
  promises w !! tid = Some (AwaitMultiSet c a b) ->
  promises (multiSetDone tid (WriteFail m) w) !! tid
  = Some (AwaitMultiRemove (StorageError m)).
Proof.
  intros Hp. unfold multiSetDone. rewrite Hp. cbn [AsyncStorage.multiSet].
  by eapply catch_block_self.
Qed.

Lemma multiRemoveDone_settles w tid err r :
  promises w !! tid = Some (AwaitMultiRemove err) ->
  isRefreshing (multiRemoveDone tid r w) = false
  /\ exists e, promises (multiRemoveDone tid r w) !! tid = Some (Rejected e).
Proof.
  intros Hp. destruct (multiRemoveDone_spec w tid err r Hp) as (Hf & _ & _ & _ & Hr).
  split; [exact Hf|]. destruct r; destruct Hr as [_ Hr]; eauto.
Qed.

Lemma step_in_branch w a tid p :
  promises w !! tid = Some p -> in_refresh p = true ->
  exists p', promises (step w a) !! tid = Some p'
    /\ (in_refresh p' = true \/ isRefreshing (step w a) = false).
Proof.
  intros Hp Hr.
  assert (Hsame : forall w', promises w' !! tid = Some p ->
            exists p', promises w' !! tid = Some p'
              /\ (in_refresh p' = true \/ isRefreshing w' = false)) by eauto.
  assert (Hsettle : forall error token, settle_form error token p = p)
    by (intros; by destruct p).
  destruct a as [e|tid' r|tid' r|tid' r|tid' r|tid']; cbn [step].
  - apply Hsame. destruct (onRejected_frame e w) as (_ & _ & _ & q & ->).
    rewrite lookup_app_l; [done|]. by eapply lookup_lt_Some.
  - destruct (decide (tid = tid')) as [<-|Hne].
    + destruct p; try (apply Hsame; unfold getItemDone; by rewrite Hp).
      rewrite (getItemDone_self w tid _ r Hp). destruct r; eauto.
    + apply Hsame. unfold getItemDone.
      destruct (promises w !! tid') as [[]|]; try done.
      destruct r; cbn [AsyncStorage.getItem].
      * cbn [promises emit set_promise set_promises].
        by rewrite list_lookup_insert_ne.
      * rewrite catch_block_lookup, Hp by done. simpl. rewrite Hsettle.
        by destruct (decide _).
  - destruct (decide (tid = tid')) as [<-|Hne].
    + destruct p; try (apply Hsame; unfold refreshPostDone; by rewrite Hp).
      rewrite (refreshPostDone_self w tid _ r Hp). destruct r as [[]|]; eauto.
    + apply Hsame. unfold refreshPostDone.
      destruct (promises w !! tid') as [[]|]; try done.
      destruct r as [[]|].
      * cbn [promises set_promise set_promises]. by rewrite list_lookup_insert_ne.
      * rewrite catch_block_lookup, Hp by done. simpl. rewrite Hsettle.
        by destruct (decide _).
  - destruct (decide (tid = tid')) as [<-|Hne].
    + destruct p; try (apply Hsame; unfold multiSetDone; by rewrite Hp).
      destruct r.
      * destruct (multiSetDone_ok w tid _ _ _ Hp) as (_ & Hf & _ & _ & _ & Hq & _).
        eauto.
      * rewrite (multiSetDone_fail_self w tid _ _ _ _ Hp). eauto.
    + apply Hsame.
      destruct (promises w !! tid') as [q|] eqn:Hq;
        [|unfold multiSetDone; by rewrite Hq].
      destruct q; try (unfold multiSetDone; by rewrite Hq).
      destruct r.
      * destruct (multiSetDone_ok w tid' _ _ _ Hq) as (_ & _ & _ & _ & _ & _ & Hoth).
        rewrite (Hoth tid Hne), Hp. simpl. rewrite Hsettle. by destruct (decide _).
      * unfold multiSetDone. rewrite Hq. cbn [AsyncStorage.multiSet].
        rewrite catch_block_lookup, Hp by done. simpl. rewrite Hsettle.
        by destruct (decide _).
  - destruct (decide (tid = tid')) as [<-|Hne].
    + destruct p; try (apply Hsame; unfold multiRemoveDone; by rewrite Hp).
      destruct (multiRemoveDone_settles w tid _ r Hp) as [Hf [e He]]. eauto.
    + apply Hsame.
      destruct (promises w !! tid') as [q|] eqn:Hq;
        [|unfold multiRemoveDone; by rewrite Hq].
      destruct q; try (unfold multiRemoveDone; by rewrite Hq).
      destruct (multiRemoveDone_spec w tid' _ r Hq) as (_ & _ & _ & Hoth & _).
      by rewrite Hoth.
  - apply Hsame. rewrite thenCallback_lookup, Hp.
    destruct (decide _); [|done]. simpl. by destruct p.
Qed.

(** C4.  At whatever step a handler leaves the refresh branch, the flag is
    idle after that step; and a handler that entered the branch leaves it,
    with the flag idle, once its awaited operations have completed, whatever
    their outcomes: the read or the call rejected, the write or the removal
    rejected. *)
Theorem flag_reset_when_branch_returns :
  (forall (w : World) (a : Action) (tid : nat) (p p' : Handler),
     promises w !! tid = Some p -> in_refresh p = true ->
     promises (step w a) !! tid = Some p' -> in_refresh p' = false ->
     isRefreshing (step w a) = false)
  /\ (forall (w : World) (tid : nat) (c : RequestConfig)
        (r_get : ReadOutcome) (r_post : Settled (string * string))
        (r_set r_remove : WriteOutcome),
        promises w !! tid = Some (AwaitGetItem c) ->
        let w' := run w [GetItemDone tid r_get; RefreshPostDone tid r_post;
                         MultiSetDone tid r_set; MultiRemoveDone tid r_remove] in
        isRefreshing w' = false
        /\ exists p', promises w' !! tid = Some p' /\ settled p' = true).
Proof.
  split.
  - intros w a tid p p' Hp Hr Hp' Hr'.
    destruct (step_in_branch w a tid p Hp Hr) as (q & Hq & [Hin|Hfl]); [|done].
    rewrite Hp' in Hq. injection Hq as <-. congruence.
  - intros w tid c r_get r_post r_set r_remove Hp w'. subst w'.
    cbn [run foldl step].
    pose proof (getItemDone_self w tid c r_get Hp) as H1.
    set (w1 := getItemDone tid r_get w) in *.
    assert (Hskip_post : forall w0 e, promises w0 !! tid = Some (AwaitMultiRemove e) ->
              refreshPostDone tid r_post w0 = w0)
      by (intros w0 e H0; unfold refreshPostDone; by rewrite H0).
    assert (Hskip_set : forall w0 e, promises w0 !! tid = Some (AwaitMultiRemove e) ->
              multiSetDone tid r_set w0 = w0)
      by (intros w0 e H0; unfold multiSetDone; by rewrite H0).
    assert (Hfin : forall w0 e, promises w0 !! tid = Some (AwaitMultiRemove e) ->
              isRefreshing (multiRemoveDone tid r_remove w0) = false
              /\ exists p', promises (multiRemoveDone tid r_remove w0) !! tid = Some p'
                   /\ settled p' = true).
    { intros w0 e H0.
      destruct (multiRemoveDone_settles w0 tid e r_remove H0) as [Hf [e' He']].
      eauto. }
    destruct r_get.
    + pose proof (refreshPostDone_self w1 tid c r_post H1) as H2.
      set (w2 := refreshPostDone tid r_post w1) in *.
      destruct r_post as [[a b]|err].
      * destruct r_set.
        -- destruct (multiSetDone_ok w2 tid c a b H2) as (_ & Hf & _ & _ & _ & H3 & _).
           set (w3 := multiSetDone tid WriteOk w2) in *.
           assert (Hnoop : multiRemoveDone tid r_remove w3 = w3)
             by (unfold multiRemoveDone; by rewrite H3).
           rewrite Hnoop. eauto.
        -- eapply Hfin. by eapply multiSetDone_fail_self.
      * rewrite (Hskip_set w2 err H2). by eapply Hfin.
    + rewrite (Hskip_post w1 _ H1), (Hskip_set w1 _ H1). by eapply Hfin.
Qed.

Lemma flag_reset_when_branch_returns_witness :
  isRefreshing
    (step (run (init store0)
             [unauthorized (cfg "/me"); GetItemDone 0 (ReadFail "storage unavailable")])
       (MultiRemoveDone 0 (WriteFail "storage unavailable")))
  = false.
Proof.
  apply (proj1 flag_reset_when_branch_returns _ _ 0
           (AwaitMultiRemove (StorageError "storage unavailable"))
           (Rejected (StorageError "storage unavailable")));
    reflexivity.
Defined.

(** C5.  An error whose response status is not 401 (no response at all
    included) makes the handler reject with that same error; the store, the
    flag, the queue, the defaults and the network are unchanged: no retry, no
    refresh. *)
Theorem non401_passthrough (w : World) (error : Thrown) :
  response_status error <> Some 401%Z ->
  let w' := step w (Arrive error) in
  promises w' = promises w ++ [Rejected error]
  /\ storage w' = storage w
  /\ isRefreshing w' = isRefreshing w
  /\ failedQueue w' = failedQueue w
  /\ defaults_Authorization w' = defaults_Authorization w
  /\ network w' = network w.
Proof.
  intros Hs w'. subst w'. cbn [step]. unfold onRejected.
  destruct error as [status c|m]; [|done].
  simpl in Hs. by rewrite bool_decide_eq_false_2.
Qed.

Lemma non401_passthrough_witness :
  let e := AxiosError (Some 500%Z) (cfg "/me") in
  promises (step (init store0) (Arrive e)) = [Rejected e]
  /\ storage (step (init store0) (Arrive e)) = store0.
Proof.
  intros e.
  assert (Hs : response_status e <> Some 401%Z) by (simpl; congruence).
  destruct (non401_passthrough (init store0) e Hs) as (Hp & Hst & _).
  split; [exact Hp|exact Hst].
Defined.

(** ** Keys the module writes *)

Lemma step_storage_frame w a k :
  ~ token_key k -> storage (step w a) !! k = storage w !! k.
Proof.
  intros Hk.
  assert (Ha : Config.STORAGE_KEYS.ACCESS_TOKEN <> k) by (intros <-; apply Hk; by left).
  assert (Hr : Config.STORAGE_KEYS.REFRESH_TOKEN <> k) by (intros <-; apply Hk; by right).
  destruct a as [e|tid r|tid r|tid r|tid r|tid]; cbn [step].
  - by destruct (onRejected_frame e w) as (-> & _).
  - unfold getItemDone. destruct (promises w !! tid) as [[]|]; try done.
    destruct r; cbn [AsyncStorage.getItem]; [done|].
    by destruct (catch_block_frame tid (StorageError message) w) as (-> & _).
  - unfold refreshPostDone. destruct (promises w !! tid) as [[]|]; try done.
    destruct r as [[]|err]; [done|].
    by destruct (catch_block_frame tid err w) as (-> & _).
  - destruct (promises w !! tid) as [p|] eqn:Hp; [|unfold multiSetDone; by rewrite Hp].
    destruct p; try (unfold multiSetDone; by rewrite Hp).
    destruct r.
    + destruct (multiSetDone_ok w tid _ _ _ Hp) as (-> & _).
      by rewrite !lookup_insert_ne.
    + unfold multiSetDone. rewrite Hp. cbn [AsyncStorage.multiSet].
      by destruct (catch_block_frame tid (StorageError message) w) as (-> & _).
  - destruct (promises w !! tid) as [p|] eqn:Hp; [|unfold multiRemoveDone; by rewrite Hp].
    destruct p; try (unfold multiRemoveDone; by rewrite Hp).
    destruct (multiRemoveDone_spec w tid _ r Hp) as (_ & _ & _ & _ & Hs).
    destruct r; destruct Hs as [-> _]; [|done].
    by rewrite !lookup_delete_ne.
  - unfold thenCallback. destruct (promises w !! tid) as [[]|]; done.
Qed.

Lemma run_storage_frame acts w k :
  ~ token_key k -> storage (run w acts) !! k = storage w !! k.
Proof.
  intros Hk. revert w. induction acts as [|a acts IH]; intros w; [done|].
  change (run w (a :: acts)) with (run (step w a) acts).
  rewrite IH. by apply step_storage_frame.
Qed.

(** ** logout *)

(** C6 (amended).  When the read of the access token and the removal both
    complete, logout fulfils and both token keys are absent afterwards,
    whatever the backend request did and whatever ran while it was pending.
    A rejected read makes logout reject before anything is sent or removed; a
    rejected removal makes it reject with that storage error. *)
Theorem logout_clears_tokens (w : World) (during : list Action)
    (r_post : Settled unit) :
  (let out := logout ReadOk during r_post WriteOk w in
   out.2 = Fulfilled tt
   /\ storage out.1 !! Config.STORAGE_KEYS.ACCESS_TOKEN = None
   /\ storage out.1 !! Config.STORAGE_KEYS.REFRESH_TOKEN = None)
  /\ (forall m r_remove,
        logout (ReadFail m) during r_post r_remove w
        = (w, RejectedWith (StorageError m)))
  /\ (forall m,
        (logout ReadOk during r_post (WriteFail m) w).2
        = RejectedWith (StorageError m)).
Proof.
  split; [|split].
  - unfold logout. cbn [AsyncStorage.getItem AsyncStorage.multiRemove fst snd].
    destruct r_post; cbn [storage set_storage foldl];
      by rewrite lookup_delete_ne, !lookup_delete_eq.
  - done.
  - done.
Qed.

(** C6 as stated fails: a rejected read of the access token makes logout
    reject before anything is removed, and a rejected removal makes it
    reject with both tokens still stored. *)
Lemma logout_rejects_on_storage_failure :
  let unreachable := RejectedWith (AxiosError None (cfg "/logout")) in
  logout (ReadFail "storage unavailable") [] unreachable WriteOk (init store0)
  = (init store0, RejectedWith (StorageError "storage unavailable"))
  /\ (logout ReadOk [] unreachable (WriteFail "storage unavailable") (init store0)).2
     = RejectedWith (StorageError "storage unavailable")
  /\ storage (logout ReadOk [] unreachable (WriteFail "storage unavailable") (init store0)).1
       !! Config.STORAGE_KEYS.ACCESS_TOKEN = Some "A0"
  /\ storage (init store0) !! Config.STORAGE_KEYS.REFRESH_TOKEN = Some "R0".
Proof. vm_compute. repeat split; congruence. Qed.

(** C10.  Whatever the outcomes of its storage calls and of the backend
    request, logout leaves every key other than the two token keys as it
    was, in particular the remembered email and the remember-me flag. *)
Theorem logout_keeps_other_keys (w : World) (r_get : ReadOutcome)
    (during : list Action) (r_post : Settled unit) (r_remove : WriteOutcome) :
  let w' := (logout r_get during r_post r_remove w).1 in
  (forall k, k <> Config.STORAGE_KEYS.ACCESS_TOKEN ->
             k <> Config.STORAGE_KEYS.REFRESH_TOKEN ->
             storage w' !! k = storage w !! k)
  /\ storage w' !! Config.STORAGE_KEYS.USER_EMAIL
     = storage w !! Config.STORAGE_KEYS.USER_EMAIL
  /\ storage w' !! Config.STORAGE_KEYS.REMEMBER_ME
     = storage w !! Config.STORAGE_KEYS.REMEMBER_ME.
Proof.
  intros w'.
  assert (Hall : forall k, k <> Config.STORAGE_KEYS.ACCESS_TOKEN ->
                           k <> Config.STORAGE_KEYS.REFRESH_TOKEN ->
                           storage w' !! k = storage w !! k).
  { intros k Ha Hr. subst w'. unfold logout.
    destruct r_get; cbn [AsyncStorage.getItem fst]; [|done].
    assert (Hk : ~ token_key k) by (intros [?|?]; done).
    destruct r_remove, r_post; cbn [AsyncStorage.multiRemove fst storage set_storage foldl].
    all: rewrite ?lookup_delete_ne by done.
    all: by rewrite run_storage_frame. }
  split; [exact Hall|]. split; apply Hall; discriminate.
Qed.

Lemma logout_keeps_other_keys_witness :
  storage (logout ReadOk
             [unauthorized (cfg "/logout"); GetItemDone 0 ReadOk;
              RefreshPostDone 0 (Fulfilled ("A1", "R1")); MultiSetDone 0 WriteOk]
             (Fulfilled tt) WriteOk (init store0)).1 !! "userEmail"
  = Some "a@b.com".
Proof.
  rewrite (proj1 (logout_keeps_other_keys (init store0) ReadOk _ _ _) "userEmail");
    [reflexivity|discriminate|discriminate].
Defined.

(** ** Request interceptor *)

(** C7 (amended).  While the store holds a non-empty access token, every
    request through the client goes out with [Authorization: Bearer <token>],
    the token being the one in the store when the interceptor runs, whatever
    the endpoint, the headers of the request and the defaults of the client.
    While it holds none (or an empty one) the interceptor adds nothing: the
    header is the one of the request config, else the default cached by the
    last successful refresh.  A rejected read rejects the request. *)
Theorem bearer_from_store_when_present (w : World) (config : RequestConfig) :
  (forall t, storage w !! Config.STORAGE_KEYS.ACCESS_TOKEN = Some t -> t <> "" ->
     exists h, api_outgoing ReadOk w config = Fulfilled (set_headers h config)
       /\ h !! "Authorization" = Some ("Bearer " +:+ t))
  /\ (truthy (storage w !! Config.STORAGE_KEYS.ACCESS_TOKEN) = false ->
      exists h, api_outgoing ReadOk w config = Fulfilled (set_headers h config)
        /\ h !! "Authorization"
           = match headers config ≫= (fun hs => hs !! "Authorization") with
             | Some a => Some a
             | None => defaults_Authorization w
             end)
  /\ (forall m, api_outgoing (ReadFail m) w config = RejectedWith (StorageError m)).
Proof.
  unfold api_outgoing, requestInterceptor, mergeDefaults.
  cbn [AsyncStorage.getItem headers set_headers default].
  split; [|split].
  - intros t Ht Hne. rewrite Ht. cbn [truthy].
    assert (Hb : String.eqb t "" = false) by by apply String.eqb_neq.
    rewrite Hb. cbn [negb]. eexists. split; [reflexivity|].
    by rewrite lookup_insert_eq.
  - intros ->. eexists. split; [reflexivity|]. unfold id.
    rewrite lookup_union.
    assert (Hd : (match defaults_Authorization w with
                  | Some a => {["Authorization" := a]}
                  | None => ∅
                  end : gmap string string) !! "Authorization"
                 = defaults_Authorization w).
    { destruct (defaults_Authorization w);
        [apply lookup_singleton_eq|apply lookup_empty]. }
    rewrite Hd.
    destruct (headers config) as [hs|]; simpl.
    + destruct (hs !! "Authorization") as [a|]; simpl;
        by destruct (defaults_Authorization w).
    + rewrite lookup_empty. simpl. by destruct (defaults_Authorization w).
  - done.
Qed.

Lemma bearer_from_store_when_present_witness :
  exists h, api_outgoing ReadOk (init store0) (cfg "/me")
            = Fulfilled (set_headers h (cfg "/me"))
    /\ h !! "Authorization" = Some "Bearer A0".
Proof.
  apply (proj1 (bearer_from_store_when_present (init store0) (cfg "/me")) "A0").
  - reflexivity.
  - discriminate.
Defined.

(** C7 as stated fails: after a refresh and a logout the store holds no
    access token, yet a request through the client goes out with the bearer
    header kept in the defaults of the client by line 83. *)
Lemma stale_default_header_sent :
  storage after_refresh_and_logout !! Config.STORAGE_KEYS.ACCESS_TOKEN = None
  /\ api_outgoing ReadOk after_refresh_and_logout
       {| url := "/login"; headers := None; _retry := false |}
     = Fulfilled {| url := "/login";
                    headers := Some {["Authorization" := "Bearer A1"]};
                    _retry := false |}.
Proof. vm_compute. split; reflexivity. Qed.

(** ** login *)

(** C8.  A login succeeds, that is its promise fulfils, exactly when the
    post fulfils with a payload and the write of the two tokens completes,
    whatever the event loop does while the post is pending.  Whenever the
    post fulfils and the write completes, login returns the payload of the
    response, both tokens of the payload are in the store, and reading the
    access-token key right afterwards gives the access token of the payload;
    every login that fulfils is of this kind; and in every other case login
    rejects, with the error of the post or with the storage error of the
    write. *)
Theorem login_roundtrip (data : LoginDto.t) (during : list Action) (w : World) :
  (forall payload,
     let out := login data during (Fulfilled payload) WriteOk w in
     out.2 = Fulfilled payload
     /\ storage out.1 !! Config.STORAGE_KEYS.ACCESS_TOKEN
        = Some (AuthResponse.access_token payload)
     /\ storage out.1 !! Config.STORAGE_KEYS.REFRESH_TOKEN
        = Some (AuthResponse.refresh_token payload)
     /\ AsyncStorage.getItem ReadOk Config.STORAGE_KEYS.ACCESS_TOKEN out.1
        = Fulfilled (Some (AuthResponse.access_token payload)))
  /\ (forall r_post r_set w' payload,
        login data during r_post r_set w = (w', Fulfilled payload) ->
        r_post = Fulfilled payload
        /\ r_set = WriteOk
        /\ storage w' !! Config.STORAGE_KEYS.ACCESS_TOKEN
           = Some (AuthResponse.access_token payload)
        /\ storage w' !! Config.STORAGE_KEYS.REFRESH_TOKEN
           = Some (AuthResponse.refresh_token payload)
        /\ AsyncStorage.getItem ReadOk Config.STORAGE_KEYS.ACCESS_TOKEN w'
           = Fulfilled (Some (AuthResponse.access_token payload)))
  /\ (forall e r_set, (login data during (RejectedWith e) r_set w).2 = RejectedWith e)
  /\ (forall payload m,
        (login data during (Fulfilled payload) (WriteFail m) w).2
        = RejectedWith (StorageError m)).
Proof.
  assert (Hok : forall payload,
            let out := login data during (Fulfilled payload) WriteOk w in
            out.2 = Fulfilled payload
            /\ storage out.1 !! Config.STORAGE_KEYS.ACCESS_TOKEN
               = Some (AuthResponse.access_token payload)
            /\ storage out.1 !! Config.STORAGE_KEYS.REFRESH_TOKEN
               = Some (AuthResponse.refresh_token payload)
            /\ AsyncStorage.getItem ReadOk Config.STORAGE_KEYS.ACCESS_TOKEN out.1
               = Fulfilled (Some (AuthResponse.access_token payload))).
  { intros payload. unfold login.
    cbn [AsyncStorage.multiSet AsyncStorage.getItem storage set_storage foldl fst snd].
    by rewrite lookup_insert_ne, !lookup_insert_eq. }
  split; [exact Hok|]. split; [|split; [|done]].
  - intros r_post r_set w' payload H.
    destruct r_post as [response_data|e]; [|discriminate].
    destruct r_set; [|discriminate].
    specialize (Hok response_data). cbv zeta in Hok. rewrite H in Hok.
    cbn [fst snd] in Hok. destruct Hok as (Hp & Ha & Hr & Hg).
    injection Hp as ->. by repeat split.
  - done.
Qed.

Lemma login_roundtrip_witness :
  let data := {| LoginDto.email := "a@b.com"; LoginDto.password := "secret1" |} in
  let during := [unauthorized (cfg "/me"); GetItemDone 0 ReadOk;
                 RefreshPostDone 0 (Fulfilled ("A2", "R2")); MultiSetDone 0 WriteOk] in
  let out := login data during (Fulfilled sample_payload) WriteOk (init store0) in
  out.2 = Fulfilled sample_payload
  /\ AsyncStorage.getItem ReadOk Config.STORAGE_KEYS.ACCESS_TOKEN out.1
     = Fulfilled (Some "A1").
Proof.
  intros data during out. split.
  - apply (proj1 (login_roundtrip data during (init store0)) sample_payload).
  - apply (proj1 (proj2 (login_roundtrip data during (init store0)))
             (Fulfilled sample_payload) WriteOk out.1 sample_payload).
    reflexivity.
Defined.

(** * The rest of the service, the login screen and the validators *)

(** ** Invariants of the event loop *)

(** X1.  In every state the event loop reaches from a fresh module, at most
    one handler is inside the refresh branch, the flag is set exactly when
    there is one, and the queue holds distinct handlers that all still wait
    on it. *)
Theorem reachable_single_flight (s : gmap string string) (acts : list Action) :
  let w := run (init s) acts in
  in_flight w <= 1
  /\ (isRefreshing w = true <-> in_flight w = 1)
  /\ NoDup (failedQueue w)
  /\ (forall tid, tid ∈ failedQueue w ->
        exists c, promises w !! tid = Some (AwaitQueue c)).
Proof.
  intros w. pose proof (wf_run acts (init s) (wf_init s)) as [Hq Hn Hf].
  fold w in Hq, Hn, Hf.
  repeat split; try done.
  - destruct (isRefreshing w); lia.
  - intros Ht. by rewrite Ht in Hf.
  - intros H1. destruct (isRefreshing w); [done|lia].
Qed.

Lemma reachable_single_flight_witness :
  exists c, promises refreshing_world !! 1 = Some (AwaitQueue c).
Proof.
  apply (proj2 (proj2 (proj2 (reachable_single_flight store0
           [unauthorized (cfg "/me"); unauthorized (cfg "/wallet");
            GetItemDone 0 ReadOk])))).
  apply list_elem_of_singleton. reflexivity.
Defined.

(** X2.  Along any run from a fresh module the refresh endpoint is called
    at most once per 401 that a not yet retried request received while the
    flag was idle. *)
Theorem refresh_calls_bounded_by_idle_401s (s : gmap string string)
    (acts : list Action) :
  refresh_calls (run (init s) acts) <= starts (init s) acts.
Proof.
  pose proof (potential_run acts (init s)) as [_ Hle].
  assert (refresh_calls (init s) = 0) by reflexivity.
  assert (reads_pending (init s) = 0) by reflexivity.
  lia.
Qed.

(** X3.  The retry marker is one-shot: the request that started a refresh
    is re-issued with the marker set, and when that re-issued request gets a
    401 again the handler only rejects, with that error: no second refresh
    starts, nothing is queued, stored or sent. *)
Theorem retry_marker_one_shot (w : World) (c : RequestConfig)
    (new_access new_refresh : string) :
  wf w -> isRefreshing w = false -> _retry c = false ->
  let tid := length (promises w) in
  let w1 := run w [unauthorized c; GetItemDone tid ReadOk;
                   RefreshPostDone tid (Fulfilled (new_access, new_refresh));
                   MultiSetDone tid WriteOk] in
  let w2 := step w1 (unauthorized (set_retry c)) in
  promises w1 !! tid = Some (Reissued ViaApi (set_retry c))
  /\ last (network w1) = Some (Request ViaApi (set_retry c))
  /\ promises w2 = promises w1 ++ [Rejected (AxiosError (Some 401%Z) (set_retry c))]
  /\ isRefreshing w2 = false
  /\ failedQueue w2 = failedQueue w1
  /\ storage w2 = storage w1
  /\ network w2 = network w1
  /\ refresh_calls w2 = refresh_calls w + 1.
Proof.
  intros Hwf Hfl Hc tid w1 w2.
  set (wa := step w (unauthorized c)).
  assert (Hwa : wa = set_promises (promises w ++ [AwaitGetItem (set_retry c)])
                       (set_isRefreshing true w)) by by apply onRejected_idle.
  assert (Hpa : promises wa !! tid = Some (AwaitGetItem (set_retry c))).
  { rewrite Hwa. cbn [promises set_promises]. by rewrite list_lookup_middle. }
  set (wb := step wa (GetItemDone tid ReadOk)).
  pose proof (getItemDone_self wa tid _ ReadOk Hpa) as Hpb.
  change (getItemDone tid ReadOk wa) with wb in Hpb.
  set (wc := step wb (RefreshPostDone tid (Fulfilled (new_access, new_refresh)))).
  pose proof (refreshPostDone_self wb tid _ (Fulfilled (new_access, new_refresh)) Hpb) as Hpc.
  change (refreshPostDone tid (Fulfilled (new_access, new_refresh)) wb) with wc in Hpc.
  destruct (multiSetDone_ok wc tid _ _ _ Hpc) as (_ & Hf1 & _ & _ & Hn1 & Hp1 & _).
  change (multiSetDone tid WriteOk wc) with w1 in *.
  assert (Hcalls : refresh_calls w1 = refresh_calls w + 1).
  { unfold refresh_calls at 1. rewrite Hn1, count_snoc. cbn [is_refresh_call].
    fold (refresh_calls wc).
    rewrite (refresh_calls_network wb wc)
      by (subst wc; cbn [step]; by rewrite (refreshPostDone_ok wb tid (set_retry c))).
    subst wb. cbn [step]. unfold getItemDone. rewrite Hpa. cbn [AsyncStorage.getItem].
    rewrite refresh_calls_emit. cbn [is_refresh_call].
    rewrite (refresh_calls_network wa (set_promise _ _ _)) by done.
    rewrite (refresh_calls_network w wa) by by rewrite Hwa. lia. }
  assert (Hrej : w2 = set_promises
                        (promises w1 ++ [Rejected (AxiosError (Some 401%Z) (set_retry c))]) w1).
  { subst w2. cbn [step unauthorized]. unfold onRejected. cbn [_retry set_retry].
    by rewrite andb_false_r. }
  split; [exact Hp1|]. split; [rewrite Hn1; apply last_snoc|].
  rewrite Hrej. cbn [promises isRefreshing failedQueue storage network set_promises].
  repeat split; done.
Qed.

Lemma retry_marker_one_shot_witness :
  let w1 := run (init store0)
              [unauthorized (cfg "/me"); GetItemDone 0 ReadOk;
               RefreshPostDone 0 (Fulfilled ("A1", "R1")); MultiSetDone 0 WriteOk] in
  isRefreshing (step w1 (unauthorized (set_retry (cfg "/me")))) = false
  /\ refresh_calls (step w1 (unauthorized (set_retry (cfg "/me")))) = 1.
Proof.
  pose proof (retry_marker_one_shot (init store0) (cfg "/me") "A1" "R1"
                (wf_init store0) eq_refl eq_refl) as (_ & _ & _ & Hf & _ & _ & _ & Hc).
  split; [exact Hf|exact Hc].
Defined.

(** X4.  A 401 observed while the failure path awaits the removal of the
    tokens (line 88) finds the flag still set: its handler joins the queue
    that [processQueue] has already emptied, and it is still waiting there
    when the branch has returned and the flag is idle. *)
Theorem waiter_joining_during_removal_stays_pending (w : World) (tid0 : nat)
    (err : Thrown) (c : RequestConfig) (r : WriteOutcome) :
  wf w -> promises w !! tid0 = Some (AwaitMultiRemove err) -> _retry c = false ->
  let tid := length (promises w) in
  let w' := run w [unauthorized c; MultiRemoveDone tid0 r] in
  isRefreshing w' = false
  /\ in_flight w' = 0
  /\ failedQueue w' = failedQueue w ++ [tid]
  /\ promises w' !! tid = Some (AwaitQueue c)
  /\ network w' = network w.
Proof.
  intros Hwf Hp Hc tid w'.
  destruct (wf_in_branch w tid0 _ Hwf Hp eq_refl) as [Hfl _].
  set (w1 := step w (unauthorized c)).
  assert (Hw1 : w1 = set_promises (promises w ++ [AwaitQueue c])
                       (set_failedQueue (failedQueue w ++ [tid]) w))
    by by apply onRejected_refreshing.
  assert (Hlt : tid0 < length (promises w)) by by eapply lookup_lt_Some.
  assert (Hp1 : promises w1 !! tid0 = Some (AwaitMultiRemove err)).
  { rewrite Hw1. cbn [promises set_promises]. by rewrite lookup_app_l. }
  destruct (multiRemoveDone_spec w1 tid0 err r Hp1) as (Hf & Hq & Hn & Hoth & _).
  change (multiRemoveDone tid0 r w1) with w' in *.
  assert (Hwf' : wf w') by (apply wf_step; by apply wf_step).
  split; [exact Hf|]. split.
  { pose proof (wf_flight w' Hwf') as H. by rewrite Hf in H. }
  split; [by rewrite Hq, Hw1|]. split.
  - rewrite Hoth by (subst tid; lia). rewrite Hw1. cbn [promises set_promises].
    by rewrite list_lookup_middle.
  - by rewrite Hn, Hw1.
Qed.

Lemma waiter_joining_during_removal_stays_pending_witness :
  let w := step refreshing_world
             (RefreshPostDone 0 (RejectedWith (AxiosError None (cfg "/refresh")))) in
  let w' := run w [unauthorized (cfg "/kyc"); MultiRemoveDone 0 WriteOk] in
  isRefreshing w' = false /\ promises w' !! 2 = Some (AwaitQueue (cfg "/kyc")).
Proof.
  intros w w'.
  assert (Hwf : wf w) by (apply wf_step; apply wf_run; apply wf_init).
  pose proof (waiter_joining_during_removal_stays_pending w 0
                (AxiosError None (cfg "/refresh")) (cfg "/kyc") WriteOk
                Hwf eq_refl eq_refl) as (Hf & _ & _ & Hp & _).
  split; [exact Hf|exact Hp].
Defined.

(** ** The cached default header *)

Lemma step_defaults w a :
  defaults_Authorization (step w a) = defaults_Authorization w
  \/ exists a0, defaults_Authorization (step w a) = Some ("Bearer " +:+ a0).
Proof.
  destruct a as [e|tid r|tid r|tid r|tid r|tid]; cbn [step].
  - left. by destruct (onRejected_frame e w) as (_ & -> & _).
  - left. unfold getItemDone. destruct (promises w !! tid) as [[]|]; try done.
    destruct r; cbn [AsyncStorage.getItem]; [done|].
    by destruct (catch_block_frame tid (StorageError message) w) as (_ & _ & _ & -> & _).
  - left. unfold refreshPostDone. destruct (promises w !! tid) as [[]|]; try done.
    destruct r as [[]|err]; [done|].
    by destruct (catch_block_frame tid err w) as (_ & _ & _ & -> & _).
  - destruct (promises w !! tid) as [p|] eqn:Hp;
      [|left; unfold multiSetDone; by rewrite Hp].
    destruct p; try (left; unfold multiSetDone; by rewrite Hp).
    destruct r.
    + right. destruct (multiSetDone_ok w tid _ _ _ Hp) as (_ & _ & _ & Hd & _). eauto.
    + left. unfold multiSetDone. rewrite Hp. cbn [AsyncStorage.multiSet].
      by destruct (catch_block_frame tid (StorageError message) w) as (_ & _ & _ & -> & _).
  - left. unfold multiRemoveDone. destruct (promises w !! tid) as [[]|]; try done.
    by destruct r.
  - left. unfold thenCallback. destruct (promises w !! tid) as [[]|]; done.
Qed.

Lemma run_defaults_is_Some acts w :
  is_Some (defaults_Authorization w) ->
  is_Some (defaults_Authorization (run w acts)).
Proof.
  revert w. induction acts as [|a acts IH]; intros w Hs; [done|].
  change (run w (a :: acts)) with (run (step w a) acts). apply IH.
  destruct (step_defaults w a) as [->|[a0 ->]]; [done|by eexists].
Qed.

Lemma outgoing_without_stored_token w config :
  truthy (storage w !! Config.STORAGE_KEYS.ACCESS_TOKEN) = false ->
  headers config = None ->
  exists h, api_outgoing ReadOk w config = Fulfilled (set_headers h config)
    /\ h !! "Authorization" = defaults_Authorization w.
Proof.
  intros Ht Hh. unfold api_outgoing, requestInterceptor, mergeDefaults.
  cbn [AsyncStorage.getItem headers set_headers default]. rewrite Ht, Hh.
  eexists. split; [reflexivity|]. cbn [default]. unfold id.
  rewrite lookup_union, lookup_empty.
  destruct (defaults_Authorization w); [by rewrite lookup_singleton_eq|done].
Qed.

Lemma outgoing_with_stored_token w config t :
  storage w !! Config.STORAGE_KEYS.ACCESS_TOKEN = Some t -> t <> "" ->
  exists h, api_outgoing ReadOk w config = Fulfilled (set_headers h config)
    /\ h !! "Authorization" = Some ("Bearer " +:+ t).
Proof.
  intros Ht Hne. unfold api_outgoing, requestInterceptor, mergeDefaults.
  cbn [AsyncStorage.getItem headers set_headers default]. rewrite Ht. cbn [truthy].
  assert (Hb : String.eqb t "" = false) by by apply String.eqb_neq.
  rewrite Hb. cbn [negb]. eexists. split; [reflexivity|]. by rewrite lookup_insert_eq.
Qed.

(** X5.  Once a refresh has cached a bearer header in the defaults of the
    client, neither the interceptors nor logout ever clear it: after a logout
    that emptied the store, a request without headers of its own still goes
    out with a cached bearer header. *)
Theorem cached_bearer_survives_logout (w : World) (during : list Action)
    (r_post : Settled unit) (config : RequestConfig) :
  is_Some (defaults_Authorization w) -> headers config = None ->
  let w' := (logout ReadOk during r_post WriteOk w).1 in
  storage w' !! Config.STORAGE_KEYS.ACCESS_TOKEN = None
  /\ exists cached h,
       defaults_Authorization w' = Some cached
       /\ api_outgoing ReadOk w' config = Fulfilled (set_headers h config)
       /\ h !! "Authorization" = Some cached.
Proof.
  intros Hs Hh w'.
  assert (Hst : storage w' !! Config.STORAGE_KEYS.ACCESS_TOKEN = None).
  { subst w'. unfold logout.
    cbn [AsyncStorage.getItem AsyncStorage.multiRemove fst].
    destruct r_post; cbn [storage set_storage foldl];
      by rewrite lookup_delete_ne, lookup_delete_eq. }
  assert (Hd : is_Some (defaults_Authorization w')).
  { subst w'. unfold logout.
    cbn [AsyncStorage.getItem AsyncStorage.multiRemove fst].
    destruct r_post; cbn [defaults_Authorization set_storage];
      by apply run_defaults_is_Some. }
  split; [exact Hst|]. destruct Hd as [cached Hd].
  destruct (outgoing_without_stored_token w' config) as (h & Ho & Ha);
    [by rewrite Hst|done|].
  exists cached, h. by rewrite Ha in *.
Qed.

Lemma cached_bearer_survives_logout_witness :
  exists cached h,
    defaults_Authorization after_refresh_and_logout = Some cached
    /\ api_outgoing ReadOk after_refresh_and_logout (cfg_bare "/login")
       = Fulfilled (set_headers h (cfg_bare "/login"))
    /\ h !! "Authorization" = Some cached.
Proof.
  refine (proj2 (cached_bearer_survives_logout
                   (run (init store0)
                      [unauthorized (cfg "/me"); GetItemDone 0 ReadOk;
                       RefreshPostDone 0 (Fulfilled ("A1", "R1")); MultiSetDone 0 WriteOk])
                   [] (Fulfilled tt) (cfg_bare "/login") _ eq_refl)).
  by eexists.
Defined.

(** ** Keys of the store *)

Lemma pending_storage_frame u during w k :
  ~ token_key k -> storage (pending u during w) !! k = storage w !! k.
Proof. intros Hk. unfold pending. by rewrite run_storage_frame. Qed.

Lemma multiSet_tokens_frame r a b w w' k :
  ~ token_key k ->
  AsyncStorage.multiSet r [(Config.STORAGE_KEYS.ACCESS_TOKEN, a);
                           (Config.STORAGE_KEYS.REFRESH_TOKEN, b)] w = Fulfilled w' ->
  storage w' !! k = storage w !! k.
Proof.
  intros Hk H. destruct r; [|discriminate]. cbn [AsyncStorage.multiSet] in H.
  injection H as <-. cbn [storage set_storage foldl fst snd].
  rewrite !lookup_insert_ne; [done|intros <-; apply Hk; by left|intros <-; apply Hk; by right].
Qed.

(** X7.  No operation of the service touches a key other than the two token
    keys, whatever its outcome and whatever the interceptors do while its
    request is pending. *)
Theorem facade_keeps_other_keys (w : World) (during : list Action) (k : string) :
  k <> Config.STORAGE_KEYS.ACCESS_TOKEN -> k <> Config.STORAGE_KEYS.REFRESH_TOKEN ->
  (forall data r_post r_set,
     storage (login data during r_post r_set w).1 !! k = storage w !! k)
  /\ (forall data r_post r_set,
        storage (verifyOtp data during r_post r_set w).1 !! k = storage w !! k)
  /\ (forall r_get r_post r_set,
        storage (refreshToken r_get during r_post r_set w).1 !! k = storage w !! k)
  /\ (forall data r_post,
        storage (register data during r_post w).1 !! k = storage w !! k)
  /\ (forall data r_post,
        storage (forgotPassword data during r_post w).1 !! k = storage w !! k)
  /\ (forall data r_post,
        storage (resetPassword data during r_post w).1 !! k = storage w !! k)
  /\ (forall r_get,
        storage (getProfile during r_get w).1 !! k = storage w !! k).
Proof.
  intros Ha Hr.
  assert (Hk : ~ token_key k) by (intros [?|?]; done).
  assert (Hret : forall (A : Type) u (r : Settled A),
            storage (returning u during r w).1 !! k = storage w !! k).
  { intros A u r. unfold returning. destruct r; by apply pending_storage_frame. }
  repeat split.
  - intros data r_post r_set. unfold login.
    destruct r_post as [p|e]; cbn [fst]; [|by apply (pending_storage_frame "/login")].
    destruct (AsyncStorage.multiSet r_set _ _) as [w3|e] eqn:Hs; cbn [fst].
    + rewrite (multiSet_tokens_frame _ _ _ _ _ k Hk Hs).
      by apply (pending_storage_frame "/login").
    + by apply (pending_storage_frame "/login").
  - intros data r_post r_set. unfold verifyOtp.
    destruct r_post as [p|e]; cbn [fst]; [|by apply pending_storage_frame].
    destruct (AsyncStorage.multiSet r_set _ _) as [w3|e] eqn:Hs; cbn [fst].
    + rewrite (multiSet_tokens_frame _ _ _ _ _ k Hk Hs). by apply pending_storage_frame.
    + by apply pending_storage_frame.
  - intros r_get r_post r_set. unfold refreshToken.
    destruct r_get; cbn [AsyncStorage.getItem fst]; [|done].
    destruct r_post as [p|e]; cbn [fst]; [|by apply pending_storage_frame].
    destruct (AsyncStorage.multiSet r_set _ _) as [w3|e] eqn:Hs; cbn [fst].
    + rewrite (multiSet_tokens_frame _ _ _ _ _ k Hk Hs). by apply pending_storage_frame.
    + by apply pending_storage_frame.
  - intros. apply Hret.
  - intros. apply Hret.
  - intros. apply Hret.
  - intros. apply Hret.
Qed.

Lemma facade_keeps_other_keys_witness :
  storage (refreshToken ReadOk
             [unauthorized (cfg "/refresh"); GetItemDone 0 ReadOk;
              RefreshPostDone 0 (Fulfilled ("A1", "R1")); MultiSetDone 0 WriteOk]
             (Fulfilled ("A2", "R2")) WriteOk (init store0)).1 !! "userEmail"
  = Some "a@b.com".
Proof.
  assert (Ha : "userEmail" <> Config.STORAGE_KEYS.ACCESS_TOKEN) by discriminate.
  assert (Hr : "userEmail" <> Config.STORAGE_KEYS.REFRESH_TOKEN) by discriminate.
  destruct (facade_keeps_other_keys (init store0)
              [unauthorized (cfg "/refresh"); GetItemDone 0 ReadOk;
               RefreshPostDone 0 (Fulfilled ("A1", "R1")); MultiSetDone 0 WriteOk]
              "userEmail" Ha Hr) as (_ & _ & H & _).
  rewrite H. reflexivity.
Defined.

(** ** The session a sign-in leaves behind *)

(** X6.  After [login], [verifyOtp] or [refreshToken] fulfilled with a
    non-empty access token, a request issued through the client right away
    carries exactly that token, whatever Authorization header its config had
    and whatever bearer the defaults had cached; for the last two the new
    refresh token is stored as well. *)
Theorem session_token_on_next_request (w : World) (during : list Action)
    (config : RequestConfig) :
  (forall data r_post r_set w' p,
     login data during r_post r_set w = (w', Fulfilled p) ->
     AuthResponse.access_token p <> "" ->
     exists h, api_outgoing ReadOk w' config = Fulfilled (set_headers h config)
       /\ h !! "Authorization" = Some ("Bearer " +:+ AuthResponse.access_token p))
  /\ (forall data r_post r_set w' p,
        verifyOtp data during r_post r_set w = (w', Fulfilled p) ->
        AuthResponse.access_token p <> "" ->
        storage w' !! Config.STORAGE_KEYS.REFRESH_TOKEN
        = Some (AuthResponse.refresh_token p)
        /\ exists h, api_outgoing ReadOk w' config = Fulfilled (set_headers h config)
             /\ h !! "Authorization" = Some ("Bearer " +:+ AuthResponse.access_token p))
  /\ (forall r_get r_post r_set w' p,
        refreshToken r_get during r_post r_set w = (w', Fulfilled p) ->
        p.1 <> "" ->
        storage w' !! Config.STORAGE_KEYS.REFRESH_TOKEN = Some p.2
        /\ exists h, api_outgoing ReadOk w' config = Fulfilled (set_headers h config)
             /\ h !! "Authorization" = Some ("Bearer " +:+ p.1)).
Proof.
  split; [|split].
  - intros data r_post r_set w' p H Hne. unfold login in H.
    destruct r_post as [q|e]; [|discriminate].
    destruct r_set; cbn [AsyncStorage.multiSet] in H; [|discriminate].
    injection H as <- <-. apply outgoing_with_stored_token; [|done].
    cbn [storage set_storage foldl fst snd].
    by rewrite lookup_insert_ne, lookup_insert_eq.
  - intros data r_post r_set w' p H Hne. unfold verifyOtp in H.
    destruct r_post as [q|e]; [|discriminate].
    destruct r_set; cbn [AsyncStorage.multiSet] in H; [|discriminate].
    injection H as <- <-. split.
    + cbn [storage set_storage foldl fst snd]. by rewrite lookup_insert_eq.
    + apply outgoing_with_stored_token; [|done].
      cbn [storage set_storage foldl fst snd].
      by rewrite lookup_insert_ne, lookup_insert_eq.
  - intros r_get r_post r_set w' p H Hne. unfold refreshToken in H.
    destruct r_get; cbn [AsyncStorage.getItem] in H; [|discriminate].
    destruct r_post as [q|e]; [|discriminate].
    destruct r_set; cbn [AsyncStorage.multiSet] in H; [|discriminate].
    injection H as <- <-. split.
    + cbn [storage set_storage foldl fst snd]. by rewrite lookup_insert_eq.
    + apply outgoing_with_stored_token; [|done].
      cbn [storage set_storage foldl fst snd].
      by rewrite lookup_insert_ne, lookup_insert_eq.
Qed.

Lemma session_token_on_next_request_witness :
  let w := after_refresh_and_logout in
  let out := login {| LoginDto.email := "a@b.com"; LoginDto.password := "secret1" |}
               [] (Fulfilled second_payload) WriteOk w in
  defaults_Authorization out.1 = Some "Bearer A1"
  /\ exists h, api_outgoing ReadOk out.1 (cfg "/me") = Fulfilled (set_headers h (cfg "/me"))
       /\ h !! "Authorization" = Some "Bearer A2".
Proof.
  intros w out. split; [reflexivity|].
  assert (Hne : AuthResponse.access_token second_payload <> "") by discriminate.
  exact (proj1 (session_token_on_next_request w [] (cfg "/me"))
           {| LoginDto.email := "a@b.com"; LoginDto.password := "secret1" |}
           (Fulfilled second_payload) WriteOk out.1 second_payload eq_refl Hne).
Defined.

(** X8.  When the refresh has succeeded with a non-empty access token, the
    original request is re-issued through [api], and the request interceptor
    puts the new bearer token on it, over the header the failed attempt
    carried; the defaults of the client hold the same bearer. *)
Theorem retried_request_carries_new_token (w : World) (tid0 : nat)
    (c0 : RequestConfig) (new_access new_refresh : string) :
  promises w !! tid0 = Some (AwaitMultiSet c0 new_access new_refresh) ->
  new_access <> "" ->
  let w' := step w (MultiSetDone tid0 WriteOk) in
  last (network w') = Some (Request ViaApi c0)
  /\ defaults_Authorization w' = Some ("Bearer " +:+ new_access)
  /\ exists h, api_outgoing ReadOk w' c0 = Fulfilled (set_headers h c0)
       /\ h !! "Authorization" = Some ("Bearer " +:+ new_access).
Proof.
  intros Hp Hne w'.
  destruct (multiSetDone_ok w tid0 c0 new_access new_refresh Hp)
    as (Hs & _ & _ & Hd & Hn & _ & _).
  change (multiSetDone tid0 WriteOk w) with w' in *.
  split; [rewrite Hn; apply last_snoc|]. split; [exact Hd|].
  apply outgoing_with_stored_token; [|done].
  rewrite Hs. by rewrite lookup_insert_ne, lookup_insert_eq.
Qed.

Lemma retried_request_carries_new_token_witness :
  let old := set_headers {[ "Authorization" := "Bearer A0" ]} (cfg "/me") in
  let w := run (init store0)
             [unauthorized old; GetItemDone 0 ReadOk;
              RefreshPostDone 0 (Fulfilled ("A1", "R1"))] in
  exists h, api_outgoing ReadOk (step w (MultiSetDone 0 WriteOk)) (set_retry old)
            = Fulfilled (set_headers h (set_retry old))
    /\ h !! "Authorization" = Some "Bearer A1".
Proof.
  intros old w.
  assert (Hne : "A1" <> "") by discriminate.
  exact (proj2 (proj2 (retried_request_carries_new_token w 0 (set_retry old) "A1" "R1"
                         eq_refl Hne))).
Defined.

(** ** The matcher decides the language of a pattern *)

Section Matcher.
Import RegExp.

Lemma star_cons_inv (L : list N -> Prop) c s :
  star L (c :: s) ->
  exists s1 s2, s = s1 ++ s2 /\ L (c :: s1) /\ star L s2.
Proof.
  intros H. remember (c :: s) as cs eqn:E. revert c s E.
  induction H as [|s1 s2 H1 H2 IH]; intros c s E; [discriminate|].
  destruct s1 as [|c1 s1]; simpl in E.
  - by apply IH.
  - injection E as -> <-. eauto.
Qed.

Lemma nullable_lang r : nullable r = true <-> lang r [].
Proof.
  induction r as [| |class|r1 IH1 r2 IH2|r1 IH1 r2 IH2|r1 IH1]; simpl.
  - split; [discriminate|done].
  - done.
  - split; [discriminate|]. intros (c & H & _). discriminate.
  - rewrite andb_true_iff, IH1, IH2. split.
    + intros [H1 H2]. by exists [], [].
    + intros (s1 & s2 & E & H1 & H2). symmetry in E.
      apply app_eq_nil in E as [-> ->]. done.
  - by rewrite orb_true_iff, IH1, IH2.
  - split; [intros _; constructor|done].
Qed.

Lemma after_lang c r s : lang (after c r) s <-> lang r (c :: s).
Proof.
  revert s.
  induction r as [| |class|r1 IH1 r2 IH2|r1 IH1 r2 IH2|r1 IH1]; intros s; simpl.
  - done.
  - split; [done|discriminate].
  - destruct (class c) eqn:Hc; simpl.
    + split; [intros ->; eauto|]. intros (c' & E & _). by injection E.
    + split; [done|]. intros (c' & E & Hc'). injection E as -> _. congruence.
  - assert (Hseq : (exists s1 s2, s = s1 ++ s2 /\ lang (after c r1) s1 /\ lang r2 s2)
                   <-> (exists s1 s2, c :: s = (c :: s1) ++ s2
                          /\ lang r1 (c :: s1) /\ lang r2 s2)).
    { split; intros (s1 & s2 & E & H1 & H2); exists s1, s2.
      - rewrite E. by rewrite <- IH1.
      - simpl in E. injection E as ->. by rewrite IH1. }
    destruct (nullable r1) eqn:Hn; simpl.
    + rewrite IH2. split.
      * intros [H|H].
        -- apply Hseq in H as (s1 & s2 & E & H1 & H2). eauto.
        -- exists [], (c :: s). split; [done|]. split; [|done].
           by apply nullable_lang.
      * intros (s1 & s2 & E & H1 & H2). destruct s1 as [|c1 s1]; simpl in E.
        -- right. by rewrite E.
        -- left. injection E as <- ->. apply Hseq. eauto.
    + split.
      * intros H. apply Hseq in H as (s1 & s2 & E & H1 & H2). eauto.
      * intros (s1 & s2 & E & H1 & H2). destruct s1 as [|c1 s1]; simpl in E.
        -- apply nullable_lang in H1. congruence.
        -- injection E as <- ->. apply Hseq. eauto.
  - by rewrite IH1, IH2.
  - split.
    + intros (s1 & s2 & -> & H1 & H2). apply IH1 in H1.
      by apply (star_app _ (c :: s1) s2).
    + intros H. apply star_cons_inv in H as (s1 & s2 & -> & H1 & H2).
      exists s1, s2. by rewrite IH1.
Qed.

Lemma matches_lang r s : matches r s = true <-> lang r s.
Proof.
  revert r. induction s as [|c s IH]; intros r; simpl.
  - apply nullable_lang.
  - by rewrite IH, after_lang.
Qed.

(** Runs of one class. *)
Lemma star_class class s :
  star (lang (Unit class)) s <-> Forall (fun c => class c = true) s.
Proof.
  split.
  - induction 1 as [|s1 s2 (c & -> & Hc) _ IH]; [constructor|].
    by constructor.
  - induction 1 as [|c s Hc _ IH]; [constructor|].
    apply (star_app _ [c] s); [|done]. simpl. eauto.
Qed.

Lemma lang_Many_class class s :
  lang (Many (Unit class)) s <-> Forall (fun c => class c = true) s.
Proof. apply star_class. Qed.

Lemma lang_Some1_class class s :
  lang (Some1 (Unit class)) s <-> s <> [] /\ Forall (fun c => class c = true) s.
Proof.
  unfold Some1. simpl. split.
  - intros (s1 & s2 & -> & (c & -> & Hc) & H2). split; [done|].
    constructor; [done|]. by apply star_class.
  - intros [Hne H]. destruct H as [|c s Hc H]; [done|].
    exists [c], s. split; [done|]. split; [eauto|by apply star_class].
Qed.

Lemma star_any s : star (lang any) s.
Proof. apply star_class. by apply Forall_true. Qed.

(** [/r/.test(s)] for a pattern of one class: some code unit is in it. *)
Lemma test_class class s :
  test (Unit class) s = true <-> Exists (fun c => class c = true) s.
Proof.
  unfold test. rewrite matches_lang. simpl. split.
  - intros (s1 & s2 & -> & _ & s3 & s4 & -> & (c & -> & Hc) & _).
    apply Exists_app. right. by constructor.
  - intros (c & Hin & Hc)%Exists_exists.
    apply list_elem_of_split in Hin as (s1 & s4 & ->).
    exists s1, (c :: s4). split; [done|]. split; [apply star_any|].
    exists [c], s4. split; [done|]. split; [eauto|apply star_any].
Qed.
End Matcher.

(** ** The address check of the login screen *)

Lemma one_of_singleton (a c : N) : RegExp.one_of [a] c = true <-> c = a.
Proof.
  unfold RegExp.one_of. simpl. rewrite orb_false_r. apply N.eqb_eq.
Qed.

Lemma lang_lit (a : N) s : RegExp.lang (RegExp.Unit (RegExp.one_of [a])) s <-> s = [a].
Proof.
  simpl. split.
  - intros (c & -> & Hc). apply one_of_singleton in Hc. by subst.
  - intros ->. exists a. split; [done|]. by apply one_of_singleton.
Qed.

Lemma plain_spec c :
  LoginScreen.plain c = true <-> RegExp.space c = false /\ c <> 64%N.
Proof.
  unfold LoginScreen.plain. rewrite negb_true_iff, orb_false_iff.
  change (units "@") with [64%N].
  split; intros [Hs Ha]; (split; [done|]).
  - intros ->. by rewrite (proj2 (one_of_singleton 64 64) eq_refl) in Ha.
  - apply not_true_is_false. by rewrite one_of_singleton.
Qed.

(** X9.  The address check of the login screen accepts exactly the strings
    local@domain.tail whose three parts are non-empty and free of white space
    and of '@' (further dots are allowed anywhere in them); so an accepted
    address has no white space, exactly one '@' and at least five code
    units. *)
Theorem login_email_pattern (s : list N) :
  let part := fun p : list N =>
    p <> [] /\ Forall (fun c => RegExp.space c = false /\ c <> 64%N) p in
  (RegExp.matches LoginScreen.re s = true <->
   exists local domain tail,
     s = local ++ 64%N :: domain ++ 46%N :: tail
     /\ part local /\ part domain /\ part tail)
  /\ (RegExp.matches LoginScreen.re s = true ->
      Forall (fun c => RegExp.space c = false) s
      /\ length (List.filter (N.eqb 64) s) = 1
      /\ 5 <= length s).
Proof.
  intros part.
  assert (Hpart : forall p, RegExp.lang (RegExp.Some1 (RegExp.Unit LoginScreen.plain)) p
                            <-> part p).
  { intros p. rewrite lang_Some1_class. unfold part.
    split; intros [Hne H]; (split; [done|]);
      eapply Forall_impl; try exact H; intros c; by rewrite plain_spec. }
  assert (Hiff : RegExp.matches LoginScreen.re s = true <->
                 exists local domain tail,
                   s = local ++ 64%N :: domain ++ 46%N :: tail
                   /\ part local /\ part domain /\ part tail).
  { rewrite matches_lang. unfold LoginScreen.re.
    change (units "@") with [64%N]. change (units ".") with [46%N].
    cbn [RegExp.lang].
    fold (RegExp.lang (RegExp.Some1 (RegExp.Unit LoginScreen.plain))).
    split.
    - intros (l & s2 & -> & Hl & a & s3 & -> & Ha & d & s4 & -> & Hd & o & t & -> & Ho & Ht).
      apply (lang_lit 64) in Ha as ->. apply (lang_lit 46) in Ho as ->.
      exists l, d, t. rewrite <- !Hpart. split; [reflexivity|]. tauto.
    - intros (l & d & t & -> & Hl & Hd & Ht). rewrite <- !Hpart in *.
      exists l, (64%N :: d ++ 46%N :: t). split; [done|]. split; [done|].
      exists [64%N], (d ++ 46%N :: t). split; [done|].
      split; [by apply (lang_lit 64)|].
      exists d, (46%N :: t). split; [done|]. split; [done|].
      exists [46%N], t. split; [done|]. split; [by apply (lang_lit 46)|done]. }
  split; [exact Hiff|].
  intros (l & d & t & -> & [Hl1 Hl] & [Hd1 Hd] & [Ht1 Ht])%Hiff.
  assert (Hnone : forall p, Forall (fun c => RegExp.space c = false /\ c <> 64%N) p ->
                            List.filter (N.eqb 64) p = []).
  { intros p Hp. induction Hp as [|c p [_ Hc] _ IH]; [done|].
    cbn [List.filter]. destruct (N.eqb 64 c) eqn:E; [|exact IH].
    apply N.eqb_eq in E. congruence. }
  split; [|split].
  - rewrite Forall_app, Forall_cons, Forall_app, Forall_cons.
    repeat split; try done; eapply Forall_impl; eauto; by intros ? [? _].
  - rewrite List.filter_app. simpl. rewrite List.filter_app. simpl.
    rewrite !Hnone by done. done.
  - rewrite length_app. simpl. rewrite length_app. simpl.
    destruct l, d, t; simpl; try done; lia.
Qed.

Lemma login_email_pattern_witness :
  Forall (fun c => RegExp.space c = false) (units "a@b.com")
  /\ length (List.filter (N.eqb 64) (units "a@b.com")) = 1
  /\ 5 <= length (units "a@b.com").
Proof. apply (proj2 (login_email_pattern (units "a@b.com"))). reflexivity. Defined.

(** ** handleLogin *)

Lemma units_nil s : units s = [] <-> s = "".
Proof. destruct s; [done|]. split; discriminate. Qed.

Lemma truthy_units s : truthy (Some s) = true <-> units s <> [].
Proof.
  rewrite units_nil. cbn [truthy]. rewrite negb_true_iff.
  split.
  - intros H ->. discriminate.
  - intros H. by apply String.eqb_neq.
Qed.

Lemma validateEmail_true value st :
  (LoginScreen.validateEmail value st).2 = true
  <-> RegExp.matches LoginScreen.re (units value) = true.
Proof.
  unfold LoginScreen.validateEmail.
  destruct (truthy (Some value)) eqn:Ht; cbn [negb].
  - destruct (RegExp.matches _ _); cbn [negb snd]; done.
  - cbn [snd]. split; [discriminate|]. intros Hm.
    assert (units value = []) as Hn.
    { destruct (decide (units value = [])) as [|Hne]; [done|].
      apply truthy_units in Hne. congruence. }
    rewrite Hn in Hm. discriminate.
Qed.

Lemma validatePassword_true value st :
  (LoginScreen.validatePassword value st).2 = true <-> 6 <= length (units value).
Proof.
  unfold LoginScreen.validatePassword.
  destruct (truthy (Some value)) eqn:Ht; cbn [negb].
  - destruct (Nat.ltb_spec (length (units value)) 6); cbn [snd]; split; try done; lia.
  - cbn [snd]. split; [discriminate|]. intros Hl.
    assert (units value = []) as Hn.
    { destruct (decide (units value = [])) as [|Hne]; [done|].
      apply truthy_units in Hne. congruence. }
    rewrite Hn in Hl. simpl in Hl. lia.
Qed.

Lemma validateEmail_fields value st :
  let st' := (LoginScreen.validateEmail value st).1 in
  LoginScreen.email st' = LoginScreen.email st
  /\ LoginScreen.password st' = LoginScreen.password st
  /\ LoginScreen.rememberMe st' = LoginScreen.rememberMe st
  /\ LoginScreen.isLoading st' = LoginScreen.isLoading st
  /\ LoginScreen.passwordError st' = LoginScreen.passwordError st
  /\ ((LoginScreen.validateEmail value st).2 = false -> LoginScreen.emailError st' <> []).
Proof.
  unfold LoginScreen.validateEmail.
  destruct (negb (truthy (Some value))); [done|].
  destruct (negb (RegExp.matches _ _)); done.
Qed.

Lemma validatePassword_fields value st :
  let st' := (LoginScreen.validatePassword value st).1 in
  LoginScreen.email st' = LoginScreen.email st
  /\ LoginScreen.password st' = LoginScreen.password st
  /\ LoginScreen.rememberMe st' = LoginScreen.rememberMe st
  /\ LoginScreen.isLoading st' = LoginScreen.isLoading st
  /\ LoginScreen.emailError st' = LoginScreen.emailError st
  /\ ((LoginScreen.validatePassword value st).2 = false -> LoginScreen.passwordError st' <> []).
Proof.
  unfold LoginScreen.validatePassword.
  destruct (negb (truthy (Some value))); [done|].
  destruct (Nat.ltb _ _); done.
Qed.

Lemma login_other_keys data during r_post r_set w k :
  ~ token_key k -> storage (login data during r_post r_set w).1 !! k = storage w !! k.
Proof.
  intros Hk. unfold login.
  destruct r_post as [p|e]; cbn [fst]; [|by rewrite run_storage_frame].
  destruct (AsyncStorage.multiSet r_set _ _) as [w3|e] eqn:Hs; cbn [fst].
  - rewrite (multiSet_tokens_frame _ _ _ _ _ k Hk Hs). by rewrite run_storage_frame.
  - by rewrite run_storage_frame.
Qed.

Lemma logout_other_keys r_get during r_post r_remove w k :
  ~ token_key k ->
  storage (logout r_get during r_post r_remove w).1 !! k = storage w !! k.
Proof.
  intros Hk. unfold logout.
  assert (Ha : Config.STORAGE_KEYS.ACCESS_TOKEN <> k) by (intros <-; apply Hk; by left).
  assert (Hr : Config.STORAGE_KEYS.REFRESH_TOKEN <> k) by (intros <-; apply Hk; by right).
  destruct r_get; cbn [AsyncStorage.getItem fst]; [|done].
  destruct r_remove, r_post; cbn [AsyncStorage.multiRemove fst storage set_storage foldl].
  all: rewrite ?lookup_delete_ne by done.
  all: by rewrite run_storage_frame.
Qed.

Lemma user_email_not_token : ~ token_key Config.STORAGE_KEYS.USER_EMAIL.
Proof. intros [?|?]; discriminate. Qed.

Lemma remember_me_not_token : ~ token_key Config.STORAGE_KEYS.REMEMBER_ME.
Proof. intros [?|?]; discriminate. Qed.

Lemma validateEmail_ok value st :
  RegExp.matches LoginScreen.re (units value) = true ->
  LoginScreen.validateEmail value st = (LoginScreen.setEmailError [] st, true).
Proof.
  intros Hm. pose proof (proj2 (validateEmail_true value st) Hm) as Ht.
  unfold LoginScreen.validateEmail in *.
  destruct (negb (truthy (Some value))); [discriminate|].
  by rewrite Hm.
Qed.

Lemma validatePassword_ok value st :
  6 <= length (units value) ->
  LoginScreen.validatePassword value st = (LoginScreen.setPasswordError [] st, true).
Proof.
  intros Hl. pose proof (proj2 (validatePassword_true value st) Hl) as Ht.
  unfold LoginScreen.validatePassword in *.
  destruct (negb (truthy (Some value))); [discriminate|].
  destruct (Nat.ltb _ _); [discriminate|done].
Qed.

(** [handleLogin] past its two checks. *)
Lemma handleLogin_valid r_remember before during r_post r_set st w :
  valid_input st ->
  LoginScreen.handleLogin r_remember before during r_post r_set st w
  = let st3 := LoginScreen.setIsLoading true
                 (LoginScreen.setPasswordError [] (LoginScreen.setEmailError [] st)) in
    let w1 := run w before in
    match (if LoginScreen.rememberMe st then
             AsyncStorage.multiSet r_remember
               [(Config.STORAGE_KEYS.USER_EMAIL, LoginScreen.email st);
                (Config.STORAGE_KEYS.REMEMBER_ME, "true")] w1
           else
             AsyncStorage.multiRemove r_remember
               [Config.STORAGE_KEYS.USER_EMAIL; Config.STORAGE_KEYS.REMEMBER_ME] w1) with
    | RejectedWith err => LoginScreen.failed err st3 w1
    | Fulfilled w2 =>
        match login {| LoginDto.email := LoginScreen.email st;
                       LoginDto.password := LoginScreen.password st |}
                during r_post r_set w2 with
        | (w3, RejectedWith err) => LoginScreen.failed err st3 w3
        | (w3, Fulfilled _) =>
            (LoginScreen.setIsLoading false st3, w3, [LoginScreen.NavigationReset "Main"])
        end
    end.
Proof.
  intros [He Hp]. unfold LoginScreen.handleLogin.
  rewrite (validateEmail_ok _ _ He). cbn [negb].
  rewrite (validatePassword_ok _ _ Hp). cbn [negb]. done.
Qed.

(** X10.  When the address does not match the pattern or the password has
    fewer than six code units, [handleLogin] stops before anything happens:
    the store and the service are untouched, nothing is navigated or
    alerted, [isLoading] keeps its value, and an error message is set. *)
Theorem handleLogin_requires_valid_input (r_remember : WriteOutcome)
    (before during : list Action) (r_post : Settled AuthResponse.t)
    (r_set : WriteOutcome) (st : LoginScreen.State) (w : World) :
  ~ valid_input st ->
  let out := LoginScreen.handleLogin r_remember before during r_post r_set st w in
  out.1.2 = w
  /\ out.2 = []
  /\ LoginScreen.isLoading out.1.1 = LoginScreen.isLoading st
  /\ (LoginScreen.emailError out.1.1 <> [] \/ LoginScreen.passwordError out.1.1 <> []).
Proof.
  intros Hnv out. subst out. unfold LoginScreen.handleLogin.
  pose proof (validateEmail_true (LoginScreen.email st) st) as He.
  pose proof (validateEmail_fields (LoginScreen.email st) st) as (_ & _ & _ & Hl1 & _ & Hm1).
  destruct (LoginScreen.validateEmail (LoginScreen.email st) st) as [st1 ok1].
  cbn [fst snd] in *. destruct ok1; cbn [negb].
  - pose proof (validatePassword_true (LoginScreen.password st) st1) as Hp.
    pose proof (validatePassword_fields (LoginScreen.password st) st1)
      as (_ & _ & _ & Hl2 & _ & Hm2).
    destruct (LoginScreen.validatePassword (LoginScreen.password st) st1) as [st2 ok2].
    cbn [fst snd] in *. destruct ok2; cbn [negb fst snd].
    + exfalso. apply Hnv. split; [by apply He|by apply Hp].
    + repeat split; [congruence|]. right. by apply Hm2.
  - cbn [fst snd]. repeat split; [done|]. left. by apply Hm1.
Qed.

Lemma handleLogin_requires_valid_input_witness :
  let out := LoginScreen.handleLogin WriteOk [] [] (Fulfilled sample_payload) WriteOk
               (form "a@b" "secret1" true) (init store0) in
  out.1.2 = init store0 /\ out.2 = [].
Proof.
  intros out.
  assert (Hnv : ~ valid_input (form "a@b" "secret1" true)).
  { intros [He _]. vm_compute in He. discriminate. }
  destruct (handleLogin_requires_valid_input WriteOk [] [] (Fulfilled sample_payload)
              WriteOk (form "a@b" "secret1" true) (init store0) Hnv) as (Hw & He & _).
  split; [exact Hw|exact He].
Defined.

Lemma handleLogin_saved (before during : list Action)
    (r_post : Settled AuthResponse.t) (r_set : WriteOutcome)
    (st : LoginScreen.State) (w : World) :
  valid_input st ->
  let w' := (LoginScreen.handleLogin WriteOk before during r_post r_set st w).1.2 in
  storage w' !! Config.STORAGE_KEYS.USER_EMAIL
  = (if LoginScreen.rememberMe st then Some (LoginScreen.email st) else None)
  /\ storage w' !! Config.STORAGE_KEYS.REMEMBER_ME
     = (if LoginScreen.rememberMe st then Some "true" else None).
Proof.
  intros Hv w'. subst w'. rewrite handleLogin_valid by done. cbv zeta.
  set (d := {| LoginDto.email := LoginScreen.email st;
               LoginDto.password := LoginScreen.password st |}).
  assert (Hlogin : forall w2 k, ~ token_key k ->
    storage (match login d during r_post r_set w2 with
             | (w3, RejectedWith err) =>
                 LoginScreen.failed err
                   (LoginScreen.setIsLoading true
                      (LoginScreen.setPasswordError [] (LoginScreen.setEmailError [] st))) w3
             | (w3, Fulfilled _) =>
                 (LoginScreen.setIsLoading false
                    (LoginScreen.setIsLoading true
                       (LoginScreen.setPasswordError [] (LoginScreen.setEmailError [] st))),
                  w3, [LoginScreen.NavigationReset "Main"])
             end).1.2 !! k = storage w2 !! k).
  { intros w2 k Hk. pose proof (login_other_keys d during r_post r_set w2 k Hk) as H.
    destruct (login d during r_post r_set w2) as [w3 [p|err]]; exact H. }
  destruct (LoginScreen.rememberMe st);
    cbn [AsyncStorage.multiSet AsyncStorage.multiRemove];
    rewrite !Hlogin by (apply user_email_not_token || apply remember_me_not_token);
    cbn [storage set_storage foldl fst snd].
  - split; [by rewrite lookup_insert_ne, lookup_insert_eq|by rewrite lookup_insert_eq].
  - split; [by rewrite lookup_delete_ne, lookup_delete_eq|by rewrite lookup_delete_eq].
Qed.

(** X11.  With valid input, the remembered credentials are settled before
    the sign-in is attempted and survive it, whatever its outcome: with
    remember-me the store holds the address and the flag 'true', without it
    both keys are absent. *)
Theorem handleLogin_remembers_before_signing_in (before during : list Action)
    (r_post : Settled AuthResponse.t) (r_set : WriteOutcome)
    (st : LoginScreen.State) (w : World) :
  valid_input st ->
  let w' := (LoginScreen.handleLogin WriteOk before during r_post r_set st w).1.2 in
  storage w' !! Config.STORAGE_KEYS.USER_EMAIL
  = (if LoginScreen.rememberMe st then Some (LoginScreen.email st) else None)
  /\ storage w' !! Config.STORAGE_KEYS.REMEMBER_ME
     = (if LoginScreen.rememberMe st then Some "true" else None).
Proof. apply handleLogin_saved. Qed.

Lemma handleLogin_remembers_before_signing_in_witness :
  let w' := (LoginScreen.handleLogin WriteOk [] []
               (RejectedWith (AxiosError (Some 401%Z) (cfg_bare "/login"))) WriteOk
               (form "c@d.org" "secret1" true) (init store0)).1.2 in
  storage w' !! Config.STORAGE_KEYS.USER_EMAIL = Some "c@d.org"
  /\ storage w' !! Config.STORAGE_KEYS.REMEMBER_ME = Some "true".
Proof.
  assert (Hv : valid_input (form "c@d.org" "secret1" true)).
  { split; [reflexivity|]. vm_compute. lia. }
  exact (handleLogin_remembers_before_signing_in [] []
           (RejectedWith (AxiosError (Some 401%Z) (cfg_bare "/login"))) WriteOk
           (form "c@d.org" "secret1" true) (init store0) Hv).
Defined.

(** X12.  With valid input [handleLogin] always ends with [isLoading]
    false.  It navigates to Main exactly when the write of the remembered
    credentials, the post and the write of the tokens all succeeded, and then
    both tokens of the response are in the store; otherwise it logs the error
    and shows the alert, and does nothing else. *)
Theorem handleLogin_outcome (r_remember : WriteOutcome) (before during : list Action)
    (r_post : Settled AuthResponse.t) (r_set : WriteOutcome)
    (st : LoginScreen.State) (w : World) :
  valid_input st ->
  let out := LoginScreen.handleLogin r_remember before during r_post r_set st w in
  LoginScreen.isLoading out.1.1 = false
  /\ (out.2 = [LoginScreen.NavigationReset "Main"]
      <-> r_remember = WriteOk /\ r_set = WriteOk /\ exists p, r_post = Fulfilled p)
  /\ (forall p, out.2 = [LoginScreen.NavigationReset "Main"] -> r_post = Fulfilled p ->
        storage out.1.2 !! Config.STORAGE_KEYS.ACCESS_TOKEN
        = Some (AuthResponse.access_token p)
        /\ storage out.1.2 !! Config.STORAGE_KEYS.REFRESH_TOKEN
           = Some (AuthResponse.refresh_token p))
  /\ (out.2 <> [LoginScreen.NavigationReset "Main"] ->
      exists err title message,
        out.2 = [LoginScreen.ConsoleError "Login error:" err;
                 LoginScreen.Alert title message]).
Proof.
  intros Hv out. subst out. rewrite handleLogin_valid by done. cbv zeta.
  unfold login, LoginScreen.failed.
  destruct (LoginScreen.rememberMe st), r_remember;
    cbn [AsyncStorage.multiSet AsyncStorage.multiRemove];
    destruct r_post as [q|e]; try destruct r_set;
    cbn [AsyncStorage.multiSet fst snd LoginScreen.isLoading LoginScreen.setIsLoading].
  all: split; [reflexivity|].
  all: split; [split; [intros H; first [discriminate H|eauto]
                      |intros (H1 & H2 & p & H3); first [discriminate|done]]|].
  all: split; [intros p H Hp;
               first [discriminate H
                     |injection Hp as ->; cbn [storage set_storage foldl fst snd];
                      by rewrite lookup_insert_ne, !lookup_insert_eq]|].
  all: intros H; first [done|eauto].
Qed.

Lemma handleLogin_outcome_witness :
  (LoginScreen.handleLogin WriteOk [] [] (Fulfilled sample_payload) WriteOk
     (form "a@b.com" "secret1" false) (init store0)).2
  = [LoginScreen.NavigationReset "Main"].
Proof.
  assert (Hv : valid_input (form "a@b.com" "secret1" false)).
  { split; [reflexivity|]. vm_compute. lia. }
  apply (proj1 (proj2 (handleLogin_outcome WriteOk [] [] (Fulfilled sample_payload)
                         WriteOk (form "a@b.com" "secret1" false) (init store0) Hv))).
  repeat split. by eexists.
Defined.

(** X13.  Round trip of the remembered address: after a [handleLogin] with
    valid input, whatever the sign-in did, whatever the interceptors did
    later and after any logout, the next mount of the screen pre-fills the
    address and ticks remember-me when remember-me was ticked, and changes
    nothing when it was not. *)
Theorem remembered_email_roundtrip (before during later during' between : list Action)
    (r_post : Settled AuthResponse.t) (r_set : WriteOutcome)
    (r_get : ReadOutcome) (r_post' : Settled unit) (r_remove : WriteOutcome)
    (st fresh : LoginScreen.State) (w : World) :
  valid_input st ->
  let w1 := (LoginScreen.handleLogin WriteOk before during r_post r_set st w).1.2 in
  let w2 := (logout r_get during' r_post' r_remove (run w1 later)).1 in
  LoginScreen.loadSaved ReadOk ReadOk between fresh w2
  = if LoginScreen.rememberMe st
    then (LoginScreen.setRememberMe true
            (LoginScreen.setEmail (LoginScreen.email st) fresh), [])
    else (fresh, []).
Proof.
  intros Hv w1 w2.
  destruct (handleLogin_saved before during r_post r_set st w Hv) as [He Hr].
  fold w1 in He, Hr.
  assert (He2 : storage w2 !! Config.STORAGE_KEYS.USER_EMAIL
                = storage w1 !! Config.STORAGE_KEYS.USER_EMAIL).
  { subst w2. rewrite logout_other_keys by apply user_email_not_token.
    apply run_storage_frame, user_email_not_token. }
  assert (Hr2 : storage (run w2 between) !! Config.STORAGE_KEYS.REMEMBER_ME
                = storage w1 !! Config.STORAGE_KEYS.REMEMBER_ME).
  { rewrite run_storage_frame by apply remember_me_not_token.
    subst w2. rewrite logout_other_keys by apply remember_me_not_token.
    apply run_storage_frame, remember_me_not_token. }
  unfold LoginScreen.loadSaved. cbn [AsyncStorage.getItem].
  rewrite He2, Hr2, He, Hr.
  destruct (LoginScreen.rememberMe st); [|done].
  assert (Ht : truthy (Some (LoginScreen.email st)) = true).
  { apply truthy_units. intros Hn. destruct Hv as [Hm _]. rewrite Hn in Hm.
    discriminate. }
  rewrite Ht. by rewrite bool_decide_eq_true_2.
Qed.

Lemma remembered_email_roundtrip_witness :
  let w1 := (LoginScreen.handleLogin WriteOk [] [] (Fulfilled sample_payload) WriteOk
               (form "a@b.com" "secret1" true) (init store0)).1.2 in
  let w2 := (logout ReadOk [] (Fulfilled tt) WriteOk w1).1 in
  LoginScreen.loadSaved ReadOk ReadOk [] (form "" "" false) w2
  = (form "a@b.com" "" true, []).
Proof.
  assert (Hv : valid_input (form "a@b.com" "secret1" true)).
  { split; [reflexivity|]. vm_compute. lia. }
  exact (remembered_email_roundtrip [] [] [] [] [] (Fulfilled sample_payload) WriteOk
           ReadOk (Fulfilled tt) WriteOk (form "a@b.com" "secret1" true)
           (form "" "" false) (init store0) Hv).
Defined.

(** ** validators.ts *)

Lemma trimStart_nil s :
  Validators.trimStart s = [] <-> Forall (fun c => RegExp.space c = true) s.
Proof.
  induction s as [|c s IH]; simpl; [by split; [constructor|]|].
  destruct (RegExp.space c) eqn:Hc.
  - rewrite IH. split; [by constructor|]. by intros [_ ?]%Forall_cons.
  - split; [discriminate|]. intros [? _]%Forall_cons. congruence.
Qed.

Lemma trim_nil s :
  Validators.trim s = [] <-> Forall (fun c => RegExp.space c = true) s.
Proof.
  unfold Validators.trim. split.
  - intros H. apply (f_equal (@rev N)) in H. rewrite rev_involutive in H.
    simpl in H. apply trimStart_nil in H.
    destruct (Validators.trimStart s) as [|c s'] eqn:E; [by apply trimStart_nil|].
    exfalso. assert (Hc : RegExp.space c = false).
    { destruct s as [|a s]; [discriminate|].
      clear H. revert c s' E. induction (a :: s) as [|b l IH]; intros c s' E;
        [discriminate|].
      simpl in E. destruct (RegExp.space b) eqn:Hb; [by eapply IH|].
      by injection E as <- _. }
    simpl in H. apply Forall_app in H as [_ H]. apply Forall_cons in H as [H _].
    congruence.
  - intros H. apply trimStart_nil in H. by rewrite H.
Qed.

Lemma all_space_or_not s :
  Forall (fun c => RegExp.space c = true) s
  \/ Exists (fun c => RegExp.space c = false) s.
Proof.
  induction s as [|c s [IH|IH]]; [left; constructor| |].
  - destruct (RegExp.space c) eqn:Hc; [left|right]; by constructor.
  - right. by apply Exists_cons_tl.
Qed.

(** X14.  [isRequired] accepts a value exactly when it holds a code unit
    that is not white space: the empty string and strings of spaces, tabs and
    line terminators are refused. *)
Theorem isRequired_spec (value : list N) :
  Validators.isRequired value = None
  <-> Exists (fun c => RegExp.space c = false) value.
Proof.
  unfold Validators.isRequired.
  destruct (Validators.trim value) as [|c t] eqn:E; simpl.
  - split; [discriminate|]. intros Hex. apply trim_nil in E.
    apply Exists_exists in Hex as (c & Hin & Hc).
    rewrite Forall_forall in E. specialize (E c Hin). congruence.
  - split; [intros _|done].
    destruct (all_space_or_not value) as [Hall|Hex]; [|done].
    apply trim_nil in Hall. congruence.
Qed.

Lemma isRequired_spec_witness :
  Validators.isRequired (units "  x ") = None.
Proof.
  apply (proj2 (isRequired_spec (units "  x "))).
  apply Exists_cons_tl, Exists_cons_tl, Exists_cons_hd. reflexivity.
Defined.

Lemma range_spec lo hi l h c :
  units lo = [l] -> units hi = [h] ->
  RegExp.range lo hi c = true <-> (l <= c)%N /\ (c <= h)%N.
Proof.
  intros Hl Hh. unfold RegExp.range. rewrite Hl, Hh.
  by rewrite andb_true_iff, !N.leb_le.
Qed.

Lemma test_rule class value :
  RegExp.test (RegExp.Unit class) value = true
  <-> Exists (fun c => class c = true) value.
Proof. apply test_class. Qed.

(** X15.  [isStrongPassword] accepts a value exactly when it has at least
    eight code units and holds an upper-case letter, a lower-case letter, a
    digit and one of the special characters; a shorter value gets the length
    message, whatever it contains. *)
Theorem isStrongPassword_spec (value : list N) :
  (Validators.isStrongPassword value = None
   <-> 8 <= length value
       /\ Exists (fun c => (65 <= c)%N /\ (c <= 90)%N) value
       /\ Exists (fun c => (97 <= c)%N /\ (c <= 122)%N) value
       /\ Exists (fun c => (48 <= c)%N /\ (c <= 57)%N) value
       /\ Exists (fun c => Validators.special c = true) value)
  /\ (length value < 8 ->
      Validators.isStrongPassword value
      = Some (units "Le mot de passe doit contenir au moins 8 caract" ++ [232%N]
              ++ units "res.")).
Proof.
  unfold Validators.isStrongPassword.
  assert (Hu : forall p q : N -> Prop, (forall c, p c <-> q c) ->
                 Exists p value <-> Exists q value).
  { intros p q Hpq.
    split; intros H; (eapply Exists_impl; [exact H|]); intros c; by apply Hpq. }
  pose proof (test_rule (RegExp.range "A" "Z") value) as HU.
  pose proof (test_rule (RegExp.range "a" "z") value) as HL.
  pose proof (test_rule RegExp.digit value) as HD.
  pose proof (test_rule Validators.special value) as HS.
  rewrite (Hu _ (fun c => (65 <= c)%N /\ (c <= 90)%N)) in HU
    by (intros c; by apply range_spec).
  rewrite (Hu _ (fun c => (97 <= c)%N /\ (c <= 122)%N)) in HL
    by (intros c; by apply range_spec).
  rewrite (Hu _ (fun c => (48 <= c)%N /\ (c <= 57)%N)) in HD
    by (intros c; by apply (range_spec "0" "9")).
  destruct (Nat.ltb_spec (length value) 8) as [Hlt|Hge].
  - split; [|done]. split; [discriminate|]. intros [? _]. lia.
  - split; [|intros; lia].
    unfold Validators.rules. cbn [List.filter fst snd].
    rewrite <- HU, <- HL, <- HD, <- HS.
    destruct (RegExp.test (RegExp.Unit (RegExp.range "A" "Z")) value),
             (RegExp.test (RegExp.Unit (RegExp.range "a" "z")) value),
             (RegExp.test (RegExp.Unit RegExp.digit) value),
             (RegExp.test (RegExp.Unit Validators.special) value);
      cbn [negb fmap list_fmap length Nat.eqb];
      split; try done; try discriminate; intros (_ & ? & ? & ? & ?); discriminate.
Qed.

Lemma isStrongPassword_spec_witness :
  Validators.isStrongPassword (units "abc")
  = Some (units "Le mot de passe doit contenir au moins 8 caract" ++ [232%N]
          ++ units "res.").
Proof.
  apply (proj2 (isStrongPassword_spec (units "abc"))). vm_compute. lia.
Defined.

(** X17.  [runValidators] reports a value valid exactly when no validator
    returns a message; running two lists of validators one after the other
    appends their messages and is valid exactly when both are; there are
    never more messages than validators. *)
Theorem runValidators_spec (value : list N)
    (validators more : list Validators.ValidatorFn) :
  (Validators.isValid (Validators.runValidators value validators) = true
   <-> Forall (fun fn => fn value = None) validators)
  /\ Validators.errors (Validators.runValidators value (validators ++ more))
     = Validators.errors (Validators.runValidators value validators)
       ++ Validators.errors (Validators.runValidators value more)
  /\ (Validators.isValid (Validators.runValidators value (validators ++ more))
      = Validators.isValid (Validators.runValidators value validators)
        && Validators.isValid (Validators.runValidators value more))
  /\ length (Validators.errors (Validators.runValidators value validators))
     <= length validators.
Proof.
  unfold Validators.runValidators. cbn [Validators.isValid Validators.errors].
  split; [|split; [|split]].
  - rewrite Nat.eqb_eq, length_zero_iff_nil.
    induction validators as [|fn fns IH]; [by split; [constructor|]|].
    cbn [omap list_omap]. destruct (fn value) eqn:E.
    + split; [discriminate|]. intros [? _]%Forall_cons. congruence.
    + fold (omap (fun fn0 : Validators.ValidatorFn => fn0 value) fns).
      rewrite IH. split; [by constructor|]. by intros [_ ?]%Forall_cons.
  - apply omap_app.
  - rewrite omap_app, length_app.
    match goal with
    | |- context [length ?e1 + length ?e2] => destruct e1, e2; reflexivity
    end.
  - induction validators as [|fn fns IH]; [done|].
    cbn [omap list_omap]. fold (omap (fun fn0 : Validators.ValidatorFn => fn0 value) fns).
    destruct (fn value); simpl; lia.
Qed.

Lemma runValidators_spec_witness :
  Validators.isValid
    (Validators.runValidators (units "Abcdefg1!")
       [Validators.isRequired; Validators.isStrongPassword]) = true.
Proof.
  apply (proj1 (runValidators_spec (units "Abcdefg1!")
                  [Validators.isRequired; Validators.isStrongPassword] [])).
  repeat (apply Forall_cons; split; [reflexivity|]). constructor.
Defined.

Lemma iteration_TypeError rules values :
  foldl (Validators.iteration rules) Validators.TypeError values
  = Validators.TypeError.
Proof. by induction values. Qed.

Lemma iteration_returns rules result kv :
  ~ unruled rules kv.1 ->
  Validators.iteration rules (Validators.Return result) kv
  = Validators.Return
      (Validators.assign kv.1
         (Validators.runValidators kv.2 (own_rules rules kv.1)) result).
Proof.
  intros Hn. unfold Validators.iteration, Validators.get, own_rules, unruled in *.
  destruct (rules !! kv.1) as [[fns|]|] eqn:E; try done.
  case_bool_decide; [|done]. by destruct Hn.
Qed.

Lemma iteration_throws rules result kv :
  unruled rules kv.1 ->
  Validators.iteration rules (Validators.Return result) kv = Validators.TypeError.
Proof.
  intros [Hr Hp]. unfold Validators.iteration, Validators.get. rewrite Hr.
  by rewrite bool_decide_eq_true_2.
Qed.

Lemma unruled_dec rules key : {unruled rules key} + {~ unruled rules key}.
Proof.
  unfold unruled.
  destruct (rules !! key); [right; by intros [? _]|].
  destruct (decide (key ∈ Object.prototype)); [by left|right; by intros [_ ?]].
Qed.

Lemma loop_throws rules values result :
  foldl (Validators.iteration rules) (Validators.Return result) values
  = Validators.TypeError
  <-> exists key, key ∈ values.*1 /\ unruled rules key.
Proof.
  revert result. induction values as [|kv values IH]; intros result.
  - split; [discriminate|]. intros (key & H & _). by apply elem_of_nil in H.
  - cbn [foldl fmap list_fmap].
    destruct (unruled_dec rules kv.1) as [Hu|Hu].
    + rewrite iteration_throws, iteration_TypeError by done.
      split; [|done]. intros _. exists kv.1. split; [left|done].
    + rewrite iteration_returns, IH by done. split.
      * intros (key & H & Hk). exists key. split; [by right|done].
      * intros (key & H & Hk). exists key. split; [|done].
        apply elem_of_cons in H as [->|H]; done.
Qed.

Lemma assign_other key r result key' :
  key' <> key ->
  Validators.own (Validators.assign key r result) !! key'
  = Validators.own result !! key'.
Proof.
  intros Hne. unfold Validators.assign.
  case_bool_decide; cbn [Validators.own]; [done|]. by rewrite lookup_insert_ne.
Qed.

Lemma assign_same key r result :
  key <> units "__proto__" ->
  Validators.own (Validators.assign key r result) !! key = Some r.
Proof.
  intros Hne. unfold Validators.assign. rewrite bool_decide_eq_false_2 by done.
  cbn [Validators.own]. by rewrite lookup_insert_eq.
Qed.

Lemma assign_dom key r result :
  dom (Validators.own (Validators.assign key r result))
  = dom (Validators.own result) ∪ ({[ key ]} ∖ {[ units "__proto__" ]}).
Proof.
  unfold Validators.assign. apply set_eq. intros k.
  case_bool_decide as Hp; cbn [Validators.own].
  - rewrite Hp, elem_of_union, elem_of_difference. tauto.
  - rewrite dom_insert, !elem_of_union, elem_of_difference, !elem_of_singleton.
    split; [|tauto]. intros [->|?]; [|tauto]. right. split; done.
Qed.

Lemma loop_returns rules values result result' :
  foldl (Validators.iteration rules) (Validators.Return result) values
  = Validators.Return result' ->
  dom (Validators.own result')
  = dom (Validators.own result) ∪ (list_to_set values.*1 ∖ {[ units "__proto__" ]})
  /\ (forall key, key ∉ values.*1 ->
        Validators.own result' !! key = Validators.own result !! key)
  /\ (forall key value, (key, value) ∈ values -> key <> units "__proto__" ->
        NoDup values.*1 ->
        Validators.own result' !! key
        = Some (Validators.runValidators value (own_rules rules key)))
  /\ (forall key value, (key, value) ∈ values -> key <> units "__proto__" ->
        rules !! key = None ->
        Validators.own result' !! key
        = Some {| Validators.isValid := true; Validators.errors := [] |})
  /\ (units "__proto__" ∉ values.*1 ->
        Validators.prototype result' = Validators.prototype result)
  /\ (forall value, (units "__proto__", value) ∈ values -> NoDup values.*1 ->
        Validators.prototype result'
        = Some (Validators.runValidators value (own_rules rules (units "__proto__")))).
Proof.
  revert result. induction values as [|kv values IH]; intros result H.
  - injection H as <-. cbn [fmap list_fmap list_to_set].
    split.
    { apply set_eq. intros k.
      rewrite elem_of_union, elem_of_difference, elem_of_empty. tauto. }
    split; [done|].
    repeat split; try done; intros; by match goal with
                                       | H : _ ∈ [] |- _ => apply elem_of_nil in H
                                       end.
  - cbn [foldl] in H.
    destruct (unruled_dec rules kv.1) as [Hu|Hu].
    { by rewrite iteration_throws, iteration_TypeError in H. }
    rewrite iteration_returns in H by done.
    destruct (IH _ H) as (Hd & Hout & Hin & Hnone & Hp & Hq). clear IH.
    split; [|split; [|split; [|split; [|split]]]].
    + rewrite Hd, assign_dom. cbn [fmap list_fmap list_to_set].
      apply set_eq. intros k.
      rewrite !elem_of_union, !elem_of_difference, elem_of_union. tauto.
    + intros key Hk. cbn [fmap list_fmap] in Hk.
      apply not_elem_of_cons in Hk as [Hne Hk].
      rewrite Hout by done. by apply assign_other.
    + intros key value Hk Hne Hnd. cbn [fmap list_fmap] in Hnd.
      apply NoDup_cons in Hnd as [Hfresh Hnd].
      apply elem_of_cons in Hk as [<-|Hk].
      * cbn [fst snd] in *. rewrite Hout by done. by apply assign_same.
      * by apply (Hin key value).
    + intros key value Hk Hne Hr.
      apply elem_of_cons in Hk as [<-|Hk]; [|by apply (Hnone key value)].
      cbn [fst snd] in *.
      destruct (decide (key ∈ values.*1)) as [Hlater|Hlater].
      * apply list_elem_of_fmap in Hlater as ([k v] & -> & Hkv).
        by apply (Hnone k v).
      * rewrite Hout, assign_same by done. unfold own_rules. by rewrite Hr.
    + intros Hk. cbn [fmap list_fmap] in Hk.
      apply not_elem_of_cons in Hk as [Hne Hk].
      rewrite Hp by done. unfold Validators.assign.
      by rewrite bool_decide_eq_false_2 by done.
    + intros value Hk Hnd. cbn [fmap list_fmap] in Hnd.
      apply NoDup_cons in Hnd as [Hfresh Hnd].
      apply elem_of_cons in Hk as [<-|Hk].
      * cbn [fst snd] in *. rewrite Hp by done. unfold Validators.assign.
        by rewrite bool_decide_eq_true_2.
      * by apply Hq.
Qed.

(** X18.  [validateForm] throws a [TypeError] exactly when [values] has a
    field for which [rules] has no own property and whose name is that of a
    member of [Object.prototype] (toString, constructor and the like): the
    lookup of line 87 then finds the inherited member, which has no [map].
    When it returns, the own properties of the result are the fields of
    [values] other than [__proto__], each with the result of the rules the
    own property of [rules] gives it: a rule for a field that [values] lacks
    leaves nothing in the result, and a field without rules is valid with no
    errors.  A field named [__proto__] becomes the prototype of the result
    instead of a property; without such a field the prototype is
    untouched. *)
Theorem validateForm_spec (values : list (list N * list N))
    (rules : gmap (list N) (option (list Validators.ValidatorFn))) :
  (Validators.validateForm values rules = Validators.TypeError
   <-> exists key, key ∈ values.*1 /\ rules !! key = None /\ key ∈ Object.prototype)
  /\ (forall result,
        Validators.validateForm values rules = Validators.Return result ->
        dom (Validators.own result)
        = list_to_set values.*1 ∖ {[ units "__proto__" ]}
        /\ (forall key, key ∉ values.*1 -> Validators.own result !! key = None)
        /\ (forall key value, (key, value) ∈ values -> key <> units "__proto__" ->
              NoDup values.*1 ->
              Validators.own result !! key
              = Some (Validators.runValidators value (own_rules rules key)))
        /\ (forall key value, (key, value) ∈ values -> key <> units "__proto__" ->
              rules !! key = None ->
              Validators.own result !! key
              = Some {| Validators.isValid := true; Validators.errors := [] |})
        /\ (units "__proto__" ∉ values.*1 -> Validators.prototype result = None)
        /\ (forall value, (units "__proto__", value) ∈ values -> NoDup values.*1 ->
              Validators.prototype result
              = Some (Validators.runValidators value
                        (own_rules rules (units "__proto__"))))).
Proof.
  split; [apply loop_throws|].
  intros result H.
  destruct (loop_returns _ _ _ _ H) as (Hd & Hout & Hin & Hnone & Hp & Hq).
  cbn [Validators.own Validators.prototype] in *.
  split.
  { rewrite Hd. apply set_eq. intros k.
    rewrite elem_of_union, dom_empty, elem_of_empty. tauto. }
  split; [intros key Hk; by rewrite Hout|].
  by repeat split.
Qed.

Lemma validateForm_spec_witness :
  let rules : gmap (list N) (option (list Validators.ValidatorFn)) :=
    {[ units "email" := Some [Validators.isRequired; Validators.isEmail] ]} in
  Validators.validateForm [(units "email", units "ab.co"); (units "toString", [])]
    rules = Validators.TypeError
  /\ exists result,
       Validators.validateForm [(units "email", units "ab.co"); (units "name", [])]
         rules = Validators.Return result
       /\ Validators.own result !! units "email"
          = Some (Validators.runValidators (units "ab.co")
                    [Validators.isRequired; Validators.isEmail])
       /\ Validators.own result !! units "name"
          = Some {| Validators.isValid := true; Validators.errors := [] |}
       /\ Validators.own result !! units "toString" = None.
Proof.
  intros rules.
  assert (Hname : rules !! units "name" = None).
  { apply lookup_singleton_ne. by vm_compute. }
  assert (Hstr : rules !! units "toString" = None).
  { apply lookup_singleton_ne. by vm_compute. }
  split.
  - apply (proj1 (validateForm_spec _ rules)).
    exists (units "toString"). split; [|split; [exact Hstr|]].
    + right. left.
    + apply (bool_decide_unpack _). by vm_compute.
  - destruct (Validators.validateForm
                [(units "email", units "ab.co"); (units "name", [])] rules)
      as [result|] eqn:E.
    + exists result. split; [done|].
      destruct (proj2 (validateForm_spec _ rules) result E)
        as (_ & Hout & Hin & Hnone & _).
      split; [|split].
      * rewrite (Hin (units "email") (units "ab.co")).
        -- unfold own_rules, rules. by rewrite lookup_singleton_eq.
        -- left.
        -- by vm_compute.
        -- apply (bool_decide_unpack _). by vm_compute.
      * apply (Hnone (units "name") []); [right; left| by vm_compute |exact Hname].
      * apply Hout. apply (bool_decide_unpack _). by vm_compute.
    + exfalso. apply (proj1 (validateForm_spec _ rules)) in E.
      destruct E as (key & Hk & Hr & Hp).
      cbn [fmap list_fmap fst] in Hk.
      apply elem_of_cons in Hk as [->|Hk].
      * unfold rules in Hr. rewrite lookup_singleton_eq in Hr. discriminate.
      * apply list_elem_of_singleton in Hk as ->.
        revert Hp. apply (bool_decide_unpack _). by vm_compute.
Defined.

(** ** Character classes *)

Lemma one_of_spec cs c : RegExp.one_of cs c = true <-> In c cs.
Proof.
  unfold RegExp.one_of. rewrite existsb_exists. split.
  - intros (x & Hin & Hx). apply N.eqb_eq in Hx. by subst.
  - intros Hin. exists c. split; [done|]. apply N.eqb_refl.
Qed.

Lemma space_spec c :
  RegExp.space c = true
  <-> In c [9; 10; 11; 12; 13; 32; 160; 5760; 8232; 8233; 8239; 8287; 12288; 65279]%N
      \/ (8192 <= c /\ c <= 8202)%N.
Proof.
  unfold RegExp.space. by rewrite orb_true_iff, one_of_spec, andb_true_iff, !N.leb_le.
Qed.

Lemma visible_not_space c : (33 <= c)%N -> (c <= 126)%N -> RegExp.space c = false.
Proof.
  intros Hl Hh. apply not_true_is_false. rewrite space_spec. simpl.
  intros [H|H]; [|lia]. intuition lia.
Qed.

Lemma digit_spec c : RegExp.digit c = true <-> (48 <= c)%N /\ (c <= 57)%N.
Proof. by apply (range_spec "0" "9"). Qed.

Lemma alnum_visible c :
  Validators.alnum c = true -> (48 <= c)%N /\ (c <= 122)%N /\ c <> 64%N.
Proof.
  unfold Validators.alnum, Validators.letter.
  rewrite !orb_true_iff, digit_spec.
  rewrite (range_spec "a" "z" 97 122) by done.
  rewrite (range_spec "A" "Z" 65 90) by done. lia.
Qed.

Lemma email_class_plain (extra : string) c :
  Forall (fun x => (33 <= x)%N /\ (x <= 126)%N /\ x <> 64%N) (units extra) ->
  Validators.alnum c || RegExp.one_of (units extra) c = true ->
  LoginScreen.plain c = true.
Proof.
  intros Hex H. apply plain_spec. apply orb_true_iff in H as [H|H].
  - apply alnum_visible in H. split; [apply visible_not_space; lia|lia].
  - apply one_of_spec, list_elem_of_In in H.
    rewrite Forall_forall in Hex. destruct (Hex c H) as (? & ? & ?).
    split; [by apply visible_not_space|done].
Qed.

Lemma lang_Some1_mono (p q : N -> bool) s :
  (forall c, p c = true -> q c = true) ->
  RegExp.lang (RegExp.Some1 (RegExp.Unit p)) s ->
  RegExp.lang (RegExp.Some1 (RegExp.Unit q)) s.
Proof.
  intros Hpq. rewrite !lang_Some1_class. intros [Hne H]. split; [done|].
  eapply Forall_impl; [exact H|]. exact Hpq.
Qed.

(** X16.  Every address [isEmail] accepts is accepted by the address check
    of the login screen. *)
Theorem isEmail_implies_login_check (value : list N) :
  Validators.isEmail value = None ->
  RegExp.matches LoginScreen.re value = true.
Proof.
  unfold Validators.isEmail.
  destruct (RegExp.matches Validators.emailRegex value) eqn:Hm; [intros _|discriminate].
  apply matches_lang in Hm. apply matches_lang.
  unfold Validators.emailRegex in Hm. unfold LoginScreen.re.
  cbn [RegExp.lang] in Hm.
  destruct Hm as (l & s2 & -> & Hl & a & s3 & -> & Ha & d & s4 & -> & Hd & o & t & -> & Ho & Ht).
  assert (Hvis : forall extra,
            Forall (fun x => (33 <= x)%N /\ (x <= 126)%N /\ x <> 64%N) (units extra) ->
            forall s, RegExp.lang (RegExp.Some1 (RegExp.Unit
                        (fun c => Validators.alnum c || RegExp.one_of (units extra) c))) s ->
                      RegExp.lang (RegExp.Some1 (RegExp.Unit LoginScreen.plain)) s).
  { intros extra Hex s. apply lang_Some1_mono. intros c. by apply email_class_plain. }
  cbn [RegExp.lang].
  exists l, (a ++ d ++ o ++ t). split; [done|]. split.
  { apply (Hvis "_.+-"); [|exact Hl].
    change (units "_.+-") with [95; 46; 43; 45]%N.
    repeat (apply Forall_cons; split; [lia|]). constructor. }
  exists a, (d ++ o ++ t). split; [done|]. split; [exact Ha|].
  exists d, (o ++ t). split; [done|]. split.
  { apply (Hvis "-"); [|exact Hd].
    change (units "-") with [45]%N.
    repeat (apply Forall_cons; split; [lia|]). constructor. }
  exists o, t. split; [done|]. split; [exact Ho|].
  apply (Hvis "-."); [|exact Ht].
  change (units "-.") with [45; 46]%N.
  repeat (apply Forall_cons; split; [lia|]). constructor.
Qed.

Lemma isEmail_implies_login_check_witness :
  RegExp.matches LoginScreen.re (units "ada.l+x@mail-1.example.org") = true.
Proof. apply isEmail_implies_login_check. reflexivity. Defined.

(** ** The telephone pattern *)

Lemma digits_app s1 s2 : digits (s1 ++ s2) = digits s1 + digits s2.
Proof. unfold digits. by rewrite List.filter_app, length_app. Qed.

Lemma lang_Times_digits (r : RegExp.t) (k n : nat) s :
  (forall g, RegExp.lang r g -> digits g = k /\ Forall phone_unit g) ->
  RegExp.lang (RegExp.Times n r) s ->
  digits s = n * k /\ Forall phone_unit s.
Proof.
  intros Hr. revert s. induction n as [|n IH]; intros s; simpl.
  - intros ->. split; [reflexivity|constructor].
  - intros (g & s' & -> & Hg & Hs'). destruct (Hr g Hg) as [Hk Hp].
    destruct (IH s' Hs') as [Hn Hq]. rewrite digits_app, Forall_app. split; [lia|done].
Qed.

Lemma lang_digit s :
  RegExp.lang (RegExp.Unit RegExp.digit) s -> digits s = 1 /\ Forall phone_unit s.
Proof.
  intros (c & -> & Hc). unfold digits. simpl. rewrite Hc.
  split; [done|]. apply Forall_cons. split; [by left|constructor].
Qed.

Lemma lang_lit_digit (ch : string) (c : N) s :
  units ch = [c] -> RegExp.digit c = true ->
  RegExp.lang (Validators.lit ch) s -> s = [c] /\ digits s = 1 /\ Forall phone_unit s.
Proof.
  intros Hch Hc H. unfold Validators.lit in H. rewrite Hch in H.
  apply lang_lit in H as ->. unfold digits. simpl. rewrite Hc.
  split; [done|]. split; [done|]. apply Forall_cons. split; [by left|constructor].
Qed.

Lemma lang_separators (class : N -> bool) s :
  (forall c, class c = true -> RegExp.digit c = false /\ phone_unit c) ->
  RegExp.lang (RegExp.Many (RegExp.Unit class)) s ->
  digits s = 0 /\ Forall phone_unit s.
Proof.
  intros Hc H. apply lang_Many_class in H.
  induction H as [|c s H _ [IH1 IH2]]; [split; [reflexivity|constructor]|].
  destruct (Hc c H) as [Hd Hp]. unfold digits in *. simpl. rewrite Hd.
  split; [done|by constructor].
Qed.

Lemma space_not_digit c : RegExp.space c = true -> RegExp.digit c = false.
Proof.
  intros Hs. apply not_true_is_false. rewrite digit_spec. intros [Hl Hh].
  by rewrite (visible_not_space c) in Hs by lia.
Qed.

(** X19.  [isFrenchPhone] accepts only strings written with digits, '+',
    white space, dots and hyphens, and they hold exactly eleven digits after
    the prefix +33, thirteen after 0033 and ten after 0. *)
Theorem isFrenchPhone_accepts_only (value : list N) :
  Validators.isFrenchPhone value = None ->
  Forall phone_unit value
  /\ exists rest,
       (value = units "+33" ++ rest /\ digits value = 11)
       \/ (value = units "0033" ++ rest /\ digits value = 13)
       \/ (value = units "0" ++ rest /\ digits value = 10).
Proof.
  unfold Validators.isFrenchPhone.
  destruct (RegExp.matches Validators.phoneRegex value) eqn:Hm; [intros _|discriminate].
  apply matches_lang in Hm. unfold Validators.phoneRegex in Hm.
  destruct Hm as (pre & s1 & -> & Hpre & ws & s2 & -> & Hws & d1 & groups & -> & Hd1 & Hg).
  assert (Hsep : digits ws = 0 /\ Forall phone_unit ws).
  { eapply lang_separators; [|exact Hws]. intros c Hc.
    split; [by apply space_not_digit|]. unfold phone_unit. tauto. }
  assert (Hfirst : digits d1 = 1 /\ Forall phone_unit d1).
  { destruct Hd1 as (c & -> & Hc). apply (range_spec "1" "9" 49 57) in Hc; [|done..].
    assert (Hd : RegExp.digit c = true) by (apply digit_spec; lia).
    unfold digits. simpl. rewrite Hd. split; [done|].
    apply Forall_cons. split; [by left|constructor]. }
  assert (Hgroups : digits groups = 4 * 2 /\ Forall phone_unit groups).
  { eapply lang_Times_digits; [|exact Hg].
    intros g (sep & two & -> & Hsp & Htwo).
    assert (Hs : digits sep = 0 /\ Forall phone_unit sep).
    { eapply lang_separators; [|exact Hsp]. intros c Hc.
      apply orb_true_iff in Hc as [Hc|Hc].
      - split; [by apply space_not_digit|]. unfold phone_unit. tauto.
      - apply one_of_spec in Hc. change (units ".-") with [46; 45]%N in Hc.
        simpl in Hc. split.
        + apply not_true_is_false. rewrite digit_spec. lia.
        + unfold phone_unit. destruct Hc as [<-|[<-|[]]]; tauto. }
    assert (Ht : digits two = 2 * 1 /\ Forall phone_unit two).
    { eapply lang_Times_digits; [|exact Htwo]. apply lang_digit. }
    rewrite digits_app, Forall_app. split; [lia|tauto]. }
  destruct Hsep as [Hs1 Hs2], Hfirst as [Hf1 Hf2], Hgroups as [Hg1 Hg2].
  assert (Hrest : digits (ws ++ d1 ++ groups) = 9
                  /\ Forall phone_unit (ws ++ d1 ++ groups)).
  { rewrite !digits_app, !Forall_app. split; [lia|tauto]. }
  destruct Hrest as [Hr1 Hr2].
  destruct Hpre as [(p1 & p2 & -> & Hp1 & t1 & t2 & -> & Ht1 & Ht2)|Hzero].
  - apply (lang_lit_digit "3" 51) in Ht1 as (-> & _ & _); [|done..].
    apply (lang_lit_digit "3" 51) in Ht2 as (-> & _ & _); [|done..].
    destruct Hp1 as [Hplus|(z1 & z2 & -> & Hz1 & Hz2)].
    + unfold Validators.lit in Hplus. change (units "+") with [43%N] in Hplus.
      apply lang_lit in Hplus as ->. split.
      * rewrite Forall_app. split; [|done].
        repeat (apply Forall_cons; split; [unfold phone_unit; tauto|]).
        repeat (apply Forall_cons; split; [by left|]). constructor.
      * exists (ws ++ d1 ++ groups). left. split; [done|].
        rewrite digits_app, Hr1. reflexivity.
    + apply (lang_lit_digit "0" 48) in Hz1 as (-> & _ & _); [|done..].
      apply (lang_lit_digit "0" 48) in Hz2 as (-> & _ & _); [|done..].
      split.
      * rewrite Forall_app. split; [|done].
        repeat (apply Forall_cons; split; [by left|]). constructor.
      * exists (ws ++ d1 ++ groups). right. left. split; [done|].
        rewrite digits_app, Hr1. reflexivity.
  - apply (lang_lit_digit "0" 48) in Hzero as (-> & _ & _); [|done..].
    split.
    + rewrite Forall_app. split; [|done].
      repeat (apply Forall_cons; split; [by left|]). constructor.
    + exists (ws ++ d1 ++ groups). right. right. split; [done|].
      rewrite digits_app, Hr1. reflexivity.
Qed.

Lemma isFrenchPhone_accepts_only_witness :
  Forall phone_unit (units "+33 6 12.34-56 78").
Proof.
  apply (proj1 (isFrenchPhone_accepts_only (units "+33 6 12.34-56 78") eq_refl)).
Defined.
